(** * CodebaseLLM: the chunk-analysis pipeline

    A shallow embedding of [analyzer/llm_integration.py],
    [analyzer/knowledge_extractor.py] and the guard of [main.py], with the
    properties of the retry loop, of the response normalisation and of the
    aggregation of the per-chunk results.

    Conventions.
    - A Python [str] is a [string]; every character stands for the code point
      with the same number (code points below 256).
    - A Python exception is a record of its class name and of its [str(e)].
    - A function that may raise returns [exn + A]: [inl e] is [raise e],
      [inr a] is [return a].
    - A Python [float] delay is a rational number; the only arithmetic done on
      it is a multiplication by a power of two, which is exact on floats as
      long as the product is in their range.
    - Logging calls have no effect on any value and are left out. *)

From Stdlib Require Import String Ascii List Bool Arith ZArith QArith Lia.
From Stdlib Require Import Permutation DecimalString.
Import ListNotations.

Local Set Warnings "-register-all".
Local Close Scope Q_scope.
Local Open Scope string_scope.
Local Open Scope list_scope.

(* ================================================================== *)
(** * Python string primitives *)
(* ================================================================== *)

Module PyStr.

(** The character written [`] in the literals of this file stands for the
    double quote (code point 34). *)
Definition dquote : ascii := ascii_of_nat 34.

Fixpoint dq (s : string) : string :=
  match s with
  | EmptyString => EmptyString
  | String c r => String (if Ascii.eqb c "`" then dquote else c) (dq r)
  end.

(** [str.isspace] on one character, and the class [\s] of [re] on [str]
    patterns: code points 9..13, 28..32, 133 and 160. *)
Definition isspace (c : ascii) : bool :=
  let n := nat_of_ascii c in
  (((9 <=? n) && (n <=? 13)) || ((28 <=? n) && (n <=? 32))
   || (n =? 133) || (n =? 160))%nat.

Fixpoint rev_onto (s acc : string) : string :=
  match s with
  | EmptyString => acc
  | String c r => rev_onto r (String c acc)
  end.

Definition rev (s : string) : string := rev_onto s EmptyString.

Fixpoint lstrip (s : string) : string :=
  match s with
  | EmptyString => EmptyString
  | String c r => if isspace c then lstrip r else s
  end.

Definition rstrip (s : string) : string := rev (lstrip (rev s)).

(** [s.strip()] *)
Definition strip (s : string) : string := rstrip (lstrip s).

Fixpoint has_char (c : ascii) (s : string) : bool :=
  match s with
  | EmptyString => false
  | String d r => Ascii.eqb d c || has_char c r
  end.

(** [sub in s] *)
Fixpoint contains (sub s : string) : bool :=
  if prefix sub s then true
  else match s with
       | EmptyString => false
       | String _ r => contains sub r
       end.

(** [str.lower] on one code point below 256: the ASCII capitals and the
    Latin-1 capitals 192..222 (215, the multiplication sign, excepted)
    move up by 32. *)
Definition lower_char (c : ascii) : ascii :=
  let n := nat_of_ascii c in
  if (((65 <=? n) && (n <=? 90))
      || ((192 <=? n) && (n <=? 222) && negb (n =? 215)))%nat
  then ascii_of_nat (n + 32) else c.

Fixpoint lower (s : string) : string :=
  match s with
  | EmptyString => EmptyString
  | String c r => String (lower_char c) (lower r)
  end.

(** [str(n)] for an [int] *)
Definition str_of_int (n : Z) : string :=
  NilZero.string_of_int (Z.to_int n).

End PyStr.

(* ================================================================== *)
(** * Response normalisation: [LLMIntegration._clean_json_string] *)
(* ================================================================== *)

Module Clean.
Import PyStr.

(** [re.sub(r'^[^{]*', '', s)]: [^] matches at position 0 only, the class
    is greedy, so the longest prefix without an opening brace goes. *)
Fixpoint sub_leading (s : string) : string :=
  match s with
  | EmptyString => EmptyString
  | String c r => if Ascii.eqb c "{" then s else sub_leading r
  end.

(** [re.sub(r'[^}]*$', '', s)]: the leftmost match starts right after the
    last closing brace (at 0 when there is none) and runs to the end. *)
Fixpoint drop_to_close (t : string) : string :=
  match t with
  | EmptyString => EmptyString
  | String c r => if Ascii.eqb c "}" then t else drop_to_close r
  end.

Definition sub_trailing (s : string) : string :=
  rev (drop_to_close (rev s)).

Definition closer (c : ascii) : bool := Ascii.eqb c "}" || Ascii.eqb c "]".

(** [re.sub(r',\s*([}\]])', r'\1', s)], scanning from the left: at a comma
    followed by white space and then a closing brace or bracket, the match
    is replaced by the closer and the scan goes on after it; anywhere else
    the character is kept and the scan moves by one.  [fuel] bounds the
    number of scan steps. *)
Fixpoint sub_commas_from (fuel : nat) (s : string) : string :=
  match fuel with
  | O => s
  | S fuel' =>
      match s with
      | EmptyString => EmptyString
      | String c r =>
          if Ascii.eqb c "," then
            match lstrip r with
            | String b r' =>
                if closer b then String b (sub_commas_from fuel' r')
                else String c (sub_commas_from fuel' r)
            | EmptyString => String c (sub_commas_from fuel' r)
            end
          else String c (sub_commas_from fuel' r)
      end
  end.

Definition sub_commas (s : string) : string :=
  sub_commas_from (String.length s) s.

Definition _clean_json_string (s : string) : string :=
  let s := sub_leading s in
  let s := sub_trailing s in
  let s := sub_commas s in
  strip s.

End Clean.

(* ================================================================== *)
(** * Exceptions and JSON values *)
(* ================================================================== *)

(** A raised exception: [type(e).__name__] and [str(e)]. *)
Record exn : Type := Exn { exn_class : string; exn_str : string }.

(** What [json] parsing returns.  Numbers are the integers: no property below
    depends on a fractional number.  A [dict] keeps its keys in insertion
    order. *)
Inductive json : Type :=
| JNull
| JBool (b : bool)
| JNum (n : Z)
| JStr (s : string)
| JArr (l : list json)
| JObj (d : list (string * json)).

Definition dict : Type := list (string * json).

Module Dict.

(** [d.get(k)] *)
Fixpoint get (k : string) (d : dict) : option json :=
  match d with
  | [] => None
  | (k', v) :: r => if String.eqb k' k then Some v else get k r
  end.

(** [k in d] *)
Definition mem (k : string) (d : dict) : bool :=
  match get k d with Some _ => true | None => false end.

(** [d[k] = v]: an existing key keeps its place, a new one goes last. *)
Fixpoint set (k : string) (v : json) (d : dict) : dict :=
  match d with
  | [] => [(k, v)]
  | (k', v') :: r =>
      if String.eqb k' k then (k', v) :: r else (k', v') :: set k v r
  end.

(** [d.get(k, default)] *)
Definition get_default (k : string) (default : json) (d : dict) : json :=
  match get k d with Some v => v | None => default end.

(** [{**d0, **d}] *)
Definition update (d0 d : dict) : dict :=
  fold_left (fun acc kv => set (fst kv) (snd kv) acc) d d0.

End Dict.

(** Python's [==] on these values: [True == 1] and [False == 0], lists
    compare element by element, dicts compare as mappings whatever the order
    of their keys. *)
Fixpoint py_eq (a b : json) {struct a} : bool :=
  match a, b with
  | JNull, JNull => true
  | JBool x, JBool y => Bool.eqb x y
  | JBool x, JNum n => Z.eqb (if x then 1 else 0) n
  | JNum n, JBool x => Z.eqb n (if x then 1 else 0)
  | JNum m, JNum n => Z.eqb m n
  | JStr s, JStr t => String.eqb s t
  | JArr l, JArr l' =>
      (fix all2 (l : list json) (l' : list json) {struct l} : bool :=
         match l, l' with
         | [], [] => true
         | x :: r, y :: r' => py_eq x y && all2 r r'
         | _, _ => false
         end) l l'
  | JObj d, JObj d' =>
      Nat.eqb (List.length d) (List.length d')
      && (fix sub (d : list (string * json)) : bool :=
            match d with
            | [] => true
            | (k, v) :: r =>
                match Dict.get k d' with
                | Some v' => py_eq v v' && sub r
                | None => false
                end
            end) d
  | _, _ => false
  end.

(** [x in l] for a list [l] *)
Definition py_in (x : json) (l : list json) : bool :=
  existsb (fun y => py_eq y x) l.

(* ================================================================== *)
(** * A reader for JSON text *)
(* ================================================================== *)

(** The parsers that the code calls belong to a library.  [Reader.loads]
    reads the JSON grammar with integer numbers and with the one-character
    escapes in strings, and rejects any other text, as the library does on
    text that is no JSON; it is used to run the definitions on concrete
    responses. *)
Module Reader.
Import PyStr.

Definition is_ws (c : ascii) : bool :=
  Ascii.eqb c " " || Ascii.eqb c "009" || Ascii.eqb c "010"
  || Ascii.eqb c "013".

Fixpoint skip_ws (s : string) : string :=
  match s with
  | EmptyString => EmptyString
  | String c r => if is_ws c then skip_ws r else s
  end.

Definition unescape (c : ascii) : option ascii :=
  if Ascii.eqb c dquote then Some dquote
  else if Ascii.eqb c "\" then Some "\"%char
  else if Ascii.eqb c "/" then Some "/"%char
  else if Ascii.eqb c "b" then Some "008"%char
  else if Ascii.eqb c "f" then Some "012"%char
  else if Ascii.eqb c "n" then Some "010"%char
  else if Ascii.eqb c "r" then Some "013"%char
  else if Ascii.eqb c "t" then Some "009"%char
  else None.

(** The characters after an opening quote, up to the closing one. *)
Fixpoint string_body (s : string) (acc : string) : option (string * string) :=
  match s with
  | EmptyString => None
  | String c r =>
      if Ascii.eqb c dquote then Some (rev acc, r)
      else if Ascii.eqb c "\" then
        match r with
        | String e r' =>
            match unescape e with
            | Some x => string_body r' (String x acc)
            | None => None
            end
        | EmptyString => None
        end
      else if (nat_of_ascii c <? 32)%nat then None
      else string_body r (String c acc)
  end.

Definition digit (c : ascii) : option Z :=
  let n := nat_of_ascii c in
  if ((48 <=? n) && (n <=? 57))%nat then Some (Z.of_nat (n - 48)) else None.

Fixpoint digits (s : string) (acc : Z) : Z * string :=
  match s with
  | EmptyString => (acc, EmptyString)
  | String c r =>
      match digit c with
      | Some d => digits r (10 * acc + d)
      | None => (acc, s)
      end
  end.

(** An integer literal; a fraction or an exponent is rejected. *)
Definition number (s : string) : option (Z * string) :=
  let after (n : Z) (rest : string) : option (Z * string) :=
    match rest with
    | String c _ =>
        if Ascii.eqb c "." || Ascii.eqb c "e" || Ascii.eqb c "E"
        then None else Some (n, rest)
    | EmptyString => Some (n, rest)
    end in
  let unsigned (t : string) : option (Z * string) :=
    match t with
    | String c r =>
        match digit c with
        | Some 0%Z => after 0%Z r
        | Some d => let (n, rest) := digits r d in after n rest
        | None => None
        end
    | EmptyString => None
    end in
  match s with
  | String c r =>
      if Ascii.eqb c "-" then
        match unsigned r with
        | Some (n, rest) => Some (Z.opp n, rest)
        | None => None
        end
      else unsigned s
  | EmptyString => None
  end.

Definition literal (word : string) (v : json) (s : string)
  : option (json * string) :=
  if prefix word s
  then Some (v, substring (String.length word)
                          (String.length s - String.length word) s)
  else None.

(** One value, then the rest of the text.  Every call reads at least one
    character, so [fuel] above the length of the text is never used up. *)
Fixpoint value (fuel : nat) (s : string) {struct fuel}
  : option (json * string) :=
  match fuel with
  | O => None
  | S fuel' =>
      match skip_ws s with
      | EmptyString => None
      | String c r =>
          if Ascii.eqb c "{" then
            match skip_ws r with
            | String c' r' =>
                if Ascii.eqb c' "}" then Some (JObj [], r')
                else members fuel' r []
            | EmptyString => None
            end
          else if Ascii.eqb c "[" then
            match skip_ws r with
            | String c' r' =>
                if Ascii.eqb c' "]" then Some (JArr [], r')
                else elements fuel' r []
            | EmptyString => None
            end
          else if Ascii.eqb c dquote then
            match string_body r EmptyString with
            | Some (t, rest) => Some (JStr t, rest)
            | None => None
            end
          else if Ascii.eqb c "t" then literal "true" (JBool true) (String c r)
          else if Ascii.eqb c "f" then literal "false" (JBool false) (String c r)
          else if Ascii.eqb c "n" then literal "null" JNull (String c r)
          else
            match number (String c r) with
            | Some (n, rest) => Some (JNum n, rest)
            | None => None
            end
      end
  end

with members (fuel : nat) (s : string) (acc : dict) {struct fuel}
  : option (json * string) :=
  match fuel with
  | O => None
  | S fuel' =>
      match skip_ws s with
      | String c r =>
          if Ascii.eqb c dquote then
            match string_body r EmptyString with
            | Some (k, r1) =>
                match skip_ws r1 with
                | String c1 r2 =>
                    if Ascii.eqb c1 ":" then
                      match value fuel' r2 with
                      | Some (v, r3) =>
                          match skip_ws r3 with
                          | String c3 r4 =>
                              if Ascii.eqb c3 ","
                              then members fuel' r4 (Dict.set k v acc)
                              else if Ascii.eqb c3 "}"
                              then Some (JObj (Dict.set k v acc), r4)
                              else None
                          | EmptyString => None
                          end
                      | None => None
                      end
                    else None
                | EmptyString => None
                end
            | None => None
            end
          else None
      | EmptyString => None
      end
  end

with elements (fuel : nat) (s : string) (acc : list json) {struct fuel}
  : option (json * string) :=
  match fuel with
  | O => None
  | S fuel' =>
      match value fuel' s with
      | Some (v, r1) =>
          match skip_ws r1 with
          | String c r2 =>
              if Ascii.eqb c ","
              then elements fuel' r2 (acc ++ [v])
              else if Ascii.eqb c "]" then Some (JArr (acc ++ [v]), r2)
              else None
          | EmptyString => None
          end
      | None => None
      end
  end.

(** [json.loads]: one value and nothing but white space after it. *)
Definition loads (s : string) : option json :=
  match value (S (String.length s)) s with
  | Some (v, rest) =>
      match skip_ws rest with
      | EmptyString => Some v
      | String _ _ => None
      end
  | None => None
  end.

(** The output parser on the text of a response: the object read, or an
    [OutputParserException] whose message carries the text. *)
Definition parse_object (text : string) : exn + dict :=
  match loads text with
  | Some (JObj d) => inr d
  | _ => inl (Exn "OutputParserException" ("Invalid json output: " ++ text))
  end.

End Reader.

(* ================================================================== *)
(** * The oracle client: [LLMIntegration] *)
(* ================================================================== *)

Module LLMIntegration.
Import PyStr.

(** [_build_prompt]: the f-string around the chunk. *)
Definition prompt_head : string := dq "
You are an expert software architect and codebase analyst. Your task is to analyze the following code chunk and extract structured, in-depth knowledge for documentation and onboarding purposes.

For the given code chunk, provide a JSON object with the following keys:

- `overview`: A concise, high-level summary of the code's purpose and functionality. If possible, relate it to the overall project context.
- `methods`: An array of objects, each describing a key method or function. For each, include:
    - `name`: The method/function name
    - `signature`: The full method/function signature
    - `description`: A clear, human-readable explanation of what it does
- `complexity`: A brief assessment of the code's complexity (e.g., simple, moderate, complex) and why
- `notes`: Any other noteworthy aspects, such as design patterns, dependencies, or potential issues

IMPORTANT: Do not use trailing commas in arrays or objects. All property names and string values must be in double quotes. Do not add comments or extra text.

Return ONLY a valid, well-formatted JSON object with these keys. Do not include any extra commentary or markdown.

Code chunk:
".

Definition _build_prompt (chunk : string) : string :=
  prompt_head ++ chunk ++ "
".

(** The test of the [except] branch on [err_msg = str(e)]. *)
Definition is_rate_limit (err_msg : string) : bool :=
  contains "rate limit" (lower err_msg)
  || contains "429" err_msg
  || contains "rate_limit_exceeded" err_msg.

(** What a run does to the outside: the prompts sent to the oracle and
    the delays slept, in order. *)
Inductive event : Type :=
| Invoked (prompt : string)
| Slept (seconds : Q).

Definition is_invoked (ev : event) : bool :=
  match ev with Invoked _ => true | Slept _ => false end.

Definition delays (tr : list event) : list Q :=
  flat_map (fun ev => match ev with Slept d => [d] | Invoked _ => [] end) tr.

Definition attempts (tr : list event) : nat :=
  List.length (filter is_invoked tr).

(** The events of attempt [k] when it ends in the rate-limit branch: the
    call, then the sleep of [base_delay * (2 ** attempt)]. *)
Definition limited_round (chunk : string) (base_delay : Q) (k : nat)
  : list event :=
  [Invoked (_build_prompt chunk);
   Slept (Qmult base_delay (inject_Z (2 ^ Z.of_nat k)))].

Definition default_max_retries : Z := 5.
Definition default_base_delay : Q := 5 # 1.

(** The dict returned when the retries are used up. *)
Definition rate_limit_exceeded (max_retries : Z) : dict :=
  [("error", JStr ("Rate limit exceeded after " ++ str_of_int max_retries
                   ++ " retries."))].

(** [base_delay * (2 ** attempt)], a float times an int: the int is
    converted to a float first, and from [2 ** 1024] on it is too large. *)
Definition int_too_large : exn :=
  Exn "OverflowError" "int too large to convert to float".

Definition float_range : Z := 1024.

Section Client.
(** The state of the oracle transport, [self.llm.invoke] on it, and the
    output parser.  [time_sleep] is [time.sleep] applied to the float of the
    delay: [Some e] when it raises [e], as it does on a negative delay
    ([ValueError]) and on a delay beyond its range ([OverflowError]). *)
Variable World : Type.
Variable llm_invoke : string -> World -> (exn + string) * World.
Variable time_sleep : Q -> World -> option exn * World.
Variable parser_invoke : string -> exn + dict.

(** [time.sleep] returns on the delay of each of the attempts below [n]. *)
Definition accepts_delays (base_delay : Q) (n : nat) : Prop :=
  forall (k : nat) (w : World),
    (k < n)%nat ->
    fst (time_sleep (Qmult base_delay (inject_Z (2 ^ Z.of_nat k))) w) = None.

Definition state : Type := World * list event.

(** The body of the [try]: call, clean, parse. *)
Definition attempt_once (chunk : string) (st : state)
  : (exn + dict) * state :=
  let prompt := _build_prompt chunk in
  let (w, tr) := st in
  let (response, w') := llm_invoke prompt w in
  let st' := (w', tr ++ [Invoked prompt]) in
  match response with
  | inl e => (inl e, st')
  | inr raw_content =>
      (parser_invoke (Clean._clean_json_string raw_content), st')
  end.

(** The [while attempt < max_retries] loop; [todo] is the number of
    iterations left, [max_retries - attempt].  The product and the sleep are
    in the [except] branch: what they raise leaves the function. *)
Fixpoint retry_loop (todo : nat) (attempt : Z) (chunk : string)
         (max_retries : Z) (base_delay : Q) (st : state)
  : (exn + dict) * state :=
  match todo with
  | O => (inr (rate_limit_exceeded max_retries), st)
  | S todo' =>
      match attempt_once chunk st with
      | (inr result, st') => (inr result, st')
      | (inl e, (w', tr')) =>
          if is_rate_limit (exn_str e) then
            if (float_range <=? attempt)%Z then (inl int_too_large, (w', tr'))
            else
              let wait_time := Qmult base_delay (inject_Z (2 ^ attempt)) in
              match time_sleep wait_time w' with
              | (Some e', w'') => (inl e', (w'', tr'))
              | (None, w'') =>
                  retry_loop todo' (attempt + 1) chunk max_retries base_delay
                             (w'', tr' ++ [Slept wait_time])
              end
          else (inl e, (w', tr'))
      end
  end.

Definition analyze_code_chunk (chunk : string) (max_retries : Z)
           (base_delay : Q) (st : state) : (exn + dict) * state :=
  retry_loop (Z.to_nat max_retries) 0 chunk max_retries base_delay st.

(** [analyze_code_chunk_async] has the same body, its call awaited and
    [asyncio.sleep] awaited where [time_sleep] stands. *)
Definition analyze_code_chunk_async := analyze_code_chunk.

End Client.

End LLMIntegration.

(* ================================================================== *)
(** * The pipeline: [KnowledgeExtractor] *)
(* ================================================================== *)

Module KnowledgeExtractor.
Import PyStr.

(** One element of [code_chunks]: the keys ['file'], ['chunk'] and
    ['chunk_index']. *)
Record chunk_info : Type :=
  Chunk { file : string; chunk : string; chunk_index : Z }.

(** The [knowledge] dict, one field per key. *)
Record knowledge : Type :=
  Knowledge {
      project_info : json;
      overview : list json;
      methods : list json;
      complexity : list json;
      notes : list json }.

(** A submitted analysis with the chunk it was submitted for: what
    [future.result()], or the awaited [analyze_code_chunk_async], gives.
    The result is a dict, as the annotation of the analysis says and as a
    text that starts with a brace gives when it is read as JSON; a parser
    that returns something else than a dict is not covered. *)
Definition future : Type := chunk_info * (exn + dict).

Definition readme_prompt (readme_content : string) : string :=
  "You are an expert software architect. Summarize the following README.md for onboarding: "
  ++ "Return a JSON object with keys: 'readme_summary', 'main_features', 'usage'.
README:
" ++ readme_content.

Definition readme_error (e : exn) : json :=
  JObj [("readme_error", JStr (exn_str e))].

Definition initial (info : json) : knowledge :=
  Knowledge info [] [] [] [].

Definition add_overview (k : knowledge) (x : json) : knowledge :=
  Knowledge (project_info k) (overview k ++ [x]) (methods k)
            (complexity k) (notes k).
Definition add_method (k : knowledge) (x : json) : knowledge :=
  Knowledge (project_info k) (overview k) (methods k ++ [x])
            (complexity k) (notes k).
Definition add_complexity (k : knowledge) (x : json) : knowledge :=
  Knowledge (project_info k) (overview k) (methods k)
            (complexity k ++ [x]) (notes k).
Definition add_note (k : knowledge) (x : json) : knowledge :=
  Knowledge (project_info k) (overview k) (methods k)
            (complexity k) (notes k ++ [x]).

(** [{'file': ..., 'chunk_index': ..., key: v}] *)
Definition entry (c : chunk_info) (key : string) (v : json) : json :=
  JObj [("file", JStr (file c)); ("chunk_index", JNum (chunk_index c));
        (key, v)].

(** [{'type': ty, 'file': ..., 'chunk_index': ..., key: v}] *)
Definition typed_entry (ty : string) (c : chunk_info) (key : string)
           (v : json) : json :=
  JObj [("type", JStr ty); ("file", JStr (file c));
        ("chunk_index", JNum (chunk_index c)); (key, v)].

(** [f"LLM error: {type(e).__name__}: {e}"] *)
Definition llm_error (e : exn) : json :=
  JStr ("LLM error: " ++ exn_class e ++ ": " ++ exn_str e).

(** [result.get('raw_response', result.get('error', 'Unknown LLM response'))] *)
Definition fallback_note (result : dict) : json :=
  Dict.get_default "raw_response"
    (Dict.get_default "error" (JStr "Unknown LLM response") result) result.

(** [for method in v]: the elements of a list, the keys of a dict, the
    characters of a string; anything else is not iterable. *)
Definition py_iter (v : json) : exn + list json :=
  match v with
  | JArr l => inr l
  | JObj d => inr (map (fun kv => JStr (fst kv)) d)
  | JStr s =>
      inr (map (fun c => JStr (String c EmptyString)) (list_ascii_of_string s))
  | JNull => inl (Exn "TypeError" "'NoneType' object is not iterable")
  | JBool _ => inl (Exn "TypeError" "'bool' object is not iterable")
  | JNum _ => inl (Exn "TypeError" "'int' object is not iterable")
  end.

(** The loop [if method not in knowledge['methods']: append]. *)
Definition add_new_methods (ms : list json) (k : knowledge) : knowledge :=
  fold_left (fun k m => if py_in m (methods k) then k else add_method k m)
            ms k.

(** The body of the [for future in as_completed(futures)] loop. *)
Definition merge (k : knowledge) (fut : future) : exn + knowledge :=
  let (c, outcome) := fut in
  match outcome with
  | inl e => inr (add_note k (entry c "notes" (llm_error e)))
  | inr result =>
      if Dict.mem "overview" result || Dict.mem "methods" result
         || Dict.mem "complexity" result || Dict.mem "notes" result
      then
        let k1 := match Dict.get "overview" result with
                  | Some v => add_overview k (entry c "overview" v)
                  | None => k
                  end in
        let with_methods :=
          match Dict.get "methods" result with
          | Some ms =>
              match py_iter ms with
              | inl e => inl e
              | inr l => inr (add_new_methods l k1)
              end
          | None => inr k1
          end in
        match with_methods with
        | inl e => inl e
        | inr k2 =>
            let k3 := match Dict.get "complexity" result with
                      | Some v => add_complexity k2 (entry c "complexity" v)
                      | None => k2
                      end in
            let k4 := match Dict.get "notes" result with
                      | Some v => add_note k3 (entry c "notes" v)
                      | None => k3
                      end in
            inr k4
        end
      else inr (add_note k (entry c "notes" (fallback_note result)))
  end.

Fixpoint merge_all (k : knowledge) (completed : list future)
  : exn + knowledge :=
  match completed with
  | [] => inr k
  | fut :: rest =>
      match merge k fut with
      | inl e => inl e
      | inr k' => merge_all k' rest
      end
  end.

(** The futures in the order in which they complete: [order] lists the
    positions of the submitted futures. *)
Definition as_completed (order : list nat) (futures : list future)
  : list future :=
  flat_map (fun i => match nth_error futures i with
                     | Some fut => [fut]
                     | None => []
                     end) order.

(** [{'type': 'methods', **method}] *)
Definition method_item (method : json) : exn + json :=
  match method with
  | JObj d => inr (JObj (Dict.update [("type", JStr "methods")] d))
  | JNull => inl (Exn "TypeError" "'NoneType' object is not a mapping")
  | JBool _ => inl (Exn "TypeError" "'bool' object is not a mapping")
  | JNum _ => inl (Exn "TypeError" "'int' object is not a mapping")
  | JStr _ => inl (Exn "TypeError" "'str' object is not a mapping")
  | JArr _ => inl (Exn "TypeError" "'list' object is not a mapping")
  end.

Fixpoint method_items (ms : list json) : exn + list json :=
  match ms with
  | [] => inr []
  | m :: rest =>
      match method_item m with
      | inl e => inl e
      | inr item =>
          match method_items rest with
          | inl e => inl e
          | inr items => inr (item :: items)
          end
      end
  end.

(** The coroutine [process_chunk_with_limit], on the outcome of the awaited
    analysis. *)
Definition process_chunk_with_limit (fut : future) : exn + list json :=
  let (c, outcome) := fut in
  match outcome with
  | inl e => inr [typed_entry "notes" c "notes" (llm_error e)]
  | inr result =>
      let out1 := match Dict.get "overview" result with
                  | Some v => [typed_entry "overview" c "overview" v]
                  | None => []
                  end in
      let with_methods :=
        match Dict.get "methods" result with
        | Some ms =>
            match py_iter ms with
            | inl e => inl e
            | inr l =>
                match method_items l with
                | inl e => inl e
                | inr items => inr (out1 ++ items)
                end
            end
        | None => inr out1
        end in
      match with_methods with
      | inl e => inl e
      | inr out2 =>
          let out3 := match Dict.get "complexity" result with
                      | Some v => out2 ++ [typed_entry "complexity" c "complexity" v]
                      | None => out2
                      end in
          let out4 := match Dict.get "notes" result with
                      | Some v => out3 ++ [typed_entry "notes" c "notes" v]
                      | None => out3
                      end in
          match out4 with
          | [] => inr [typed_entry "notes" c "notes" (fallback_note result)]
          | _ :: _ => inr out4
          end
      end
  end.

Fixpoint set_nth {A : Type} (i : nat) (x : A) (l : list A) : list A :=
  match l, i with
  | [], _ => []
  | _ :: r, O => x :: r
  | y :: r, S j => y :: set_nth j x r
  end.

(** [asyncio.gather] on the tasks: they finish in the order [order]; each
    one stores its value at its own position, and the first exception
    raised by a task is raised by [gather]. *)
Fixpoint gather_run {A : Type} (order : list nat) (tasks : list (exn + A))
         (slots : list (option A)) : exn + list (option A) :=
  match order with
  | [] => inr slots
  | i :: rest =>
      match nth_error tasks i with
      | Some (inl e) => inl e
      | Some (inr v) => gather_run rest tasks (set_nth i (Some v) slots)
      | None => gather_run rest tasks slots
      end
  end.

Definition filled {A : Type} (slots : list (option A)) : list A :=
  flat_map (fun o => match o with Some v => [v] | None => [] end) slots.

Definition gather {A : Type} (order : list nat) (tasks : list (exn + A))
  : exn + list A :=
  match gather_run order tasks (repeat None (List.length tasks)) with
  | inl e => inl e
  | inr slots => inr (filled slots)
  end.

(** [item['type'] == ty] *)
Definition type_is (ty : string) (item : json) : bool :=
  match item with
  | JObj d =>
      match Dict.get "type" d with
      | Some v => py_eq v (JStr ty)
      | None => false
      end
  | _ => false
  end.

(** The [if]/[elif] chain on [item['type']]. *)
Definition place (k : knowledge) (item : json) : knowledge :=
  if type_is "overview" item then add_overview k item
  else if type_is "methods" item then add_method k item
  else if type_is "complexity" item then add_complexity k item
  else if type_is "notes" item then add_note k item
  else k.

(** The loop over [results]; every [res] is a list, the branch for a dict
    is never taken. *)
Definition place_all (k : knowledge) (results : list (list json))
  : knowledge :=
  fold_left (fun k res => fold_left place res k) results k.

(** What one completed future adds, field by field; see [merge]. *)
Definition has_any_key (result : dict) : bool :=
  Dict.mem "overview" result || Dict.mem "methods" result
  || Dict.mem "complexity" result || Dict.mem "notes" result.

Definition keyed (c : chunk_info) (key : string) (result : dict) : list json :=
  match Dict.get key result with
  | Some v => [entry c key v]
  | None => []
  end.

Definition overview_of (fut : future) : list json :=
  match snd fut with
  | inl _ => []
  | inr result => keyed (fst fut) "overview" result
  end.

Definition complexity_of (fut : future) : list json :=
  match snd fut with
  | inl _ => []
  | inr result => keyed (fst fut) "complexity" result
  end.

Definition notes_of (fut : future) : list json :=
  match snd fut with
  | inl e => [entry (fst fut) "notes" (llm_error e)]
  | inr result =>
      if has_any_key result then keyed (fst fut) "notes" result
      else [entry (fst fut) "notes" (fallback_note result)]
  end.

(** The value under ['methods'], iterated: [inl e] when the iteration
    raises [e], no method when the key is absent or the analysis raised. *)
Definition methods_of (fut : future) : exn + list json :=
  match snd fut with
  | inl _ => inr []
  | inr result =>
      match Dict.get "methods" result with
      | Some ms => py_iter ms
      | None => inr []
      end
  end.

Definition unwrap (r : exn + list json) : list json :=
  match r with inl _ => [] | inr l => l end.

Definition raises {A : Type} (r : exn + A) : bool :=
  match r with inl _ => true | inr _ => false end.

(** The loop of [add_new_methods] on the list of methods alone. *)
Definition dedup_onto (acc ms : list json) : list json :=
  fold_left (fun acc m => if py_in m acc then acc else acc ++ [m]) ms acc.

(** All the entries of an aggregate. *)
Definition entries (k : knowledge) : list json :=
  overview k ++ methods k ++ complexity k ++ notes k.

(** A method as the prompt asks for it: an object, and one that has no key
    ['type'] of its own. *)
Definition method_ok (m : json) : bool :=
  match m with
  | JObj d => negb (Dict.mem "type" d)
  | _ => false
  end.

(** An outcome whose methods, when it has the key, are a list of such
    objects. *)
Definition outcome_ok (fut : future) : bool :=
  match snd fut with
  | inl _ => true
  | inr result =>
      match Dict.get "methods" result with
      | Some (JArr l) => forallb method_ok l
      | Some _ => false
      | None => true
      end
  end.

(** No entry of the list is equal, for [==], to an earlier one. *)
Definition distinct (l : list json) : Prop :=
  ForallOrdPairs (fun x y => py_eq x y = false) l.

(** An item that the chain of [place] appends to one of the sequences. *)
Definition placeable (item : json) : bool :=
  type_is "overview" item || type_is "methods" item
  || type_is "complexity" item || type_is "notes" item.

(** The value of a task that returned. *)
Definition returned {A : Type} (task : exn + A) : option A :=
  match task with inl _ => None | inr v => Some v end.

(** What the task at position [i] does to the slots of [gather_run] when it
    returns. *)
Definition store {A : Type} (tasks : list (exn + A))
           (slots : list (option A)) (i : nat) : list (option A) :=
  match nth_error tasks i with
  | Some (inr v) => set_nth i (Some v) slots
  | _ => slots
  end.

(** Every member of [l] is in [l'], or equal to a member of [l'] for
    Python's [==]. *)
Definition covered (l l' : list json) : Prop :=
  forall m, In m l -> exists m', In m' l' /\ (m' = m \/ py_eq m' m = true).

(** Two aggregates with the same content, the order of the entries set
    aside. *)
Definition same_content (k1 k2 : knowledge) : Prop :=
  project_info k1 = project_info k2
  /\ Permutation (overview k1) (overview k2)
  /\ covered (methods k1) (methods k2)
  /\ covered (methods k2) (methods k1)
  /\ Permutation (complexity k1) (complexity k2)
  /\ Permutation (notes k1) (notes k2).

(** The futures of a run whose analysis is a function of the text of the
    chunk. *)
Definition futures_of (analyze : string -> exn + dict)
           (code_chunks : list chunk_info) : list future :=
  map (fun c => (c, analyze (chunk c))) code_chunks.

Section Extractor.
Variable World : Type.
Variable llm_invoke : string -> World -> (exn + string) * World.
(** [JsonOutputParser().parse] *)
Variable parser_parse : string -> exn + json.
(** [FAISS.from_documents] on the documents of the chunks: [Some e] when
    it raises [e]. *)
Variable faiss_from_documents : list chunk_info -> option exn.

(** The project summary.  [readme] is [None] when [README.md] does not
    exist, and otherwise what opening and reading it gives. *)
Definition project_summary (readme : option (exn + string)) (w : World)
  : json * World :=
  match readme with
  | None => (JObj [], w)
  | Some (inl e) => (readme_error e, w)
  | Some (inr readme_content) =>
      let (response, w') := llm_invoke (readme_prompt readme_content) w in
      match response with
      | inl e => (readme_error e, w')
      | inr content =>
          match parser_parse content with
          | inl e => (readme_error e, w')
          | inr info => (info, w')
          end
      end
  end.

(** [extract]: [futures] pairs every chunk of [code_chunks] with the
    outcome of its analysis, and [order] is the order in which the pool
    completes them; the pool is one that can be made, with [max_workers] at
    least 1 as by default. *)
Definition extract (readme : option (exn + string)) (w : World)
           (futures : list future) (order : list nat)
  : exn + knowledge :=
  match faiss_from_documents (map fst futures) with
  | Some e => inl e
  | None =>
      let (info, _) := project_summary readme w in
      merge_all (initial info) (as_completed order futures)
  end.

(** [extract_async]; the semaphore only restricts the orders in which
    the tasks can finish. *)
Definition extract_async (readme : option (exn + string)) (w : World)
           (futures : list future) (order : list nat)
  : exn + knowledge :=
  match faiss_from_documents (map fst futures) with
  | Some e => inl e
  | None =>
      let (info, _) := project_summary readme w in
      match gather order (map process_chunk_with_limit futures) with
      | inl e => inl e
      | inr results => inr (place_all (initial info) results)
      end
  end.

(** [main_async] from the chunks read on: nothing is extracted and
    nothing is written when there is no chunk; otherwise the knowledge
    is what is written to the output file. *)
Definition main_async (readme : option (exn + string)) (w : World)
           (futures : list future) (order : list nat)
  : exn + option knowledge :=
  match futures with
  | [] => inr None
  | _ :: _ =>
      match extract_async readme w futures order with
      | inl e => inl e
      | inr k => inr (Some k)
      end
  end.

End Extractor.

End KnowledgeExtractor.

(* ================================================================== *)
(** * Oracle stubs *)
(* ================================================================== *)

(** Transports without state, to run the client on: one that answers every
    prompt with the same text, one that raises the same exception on every
    call.  Sleeping does nothing to them; a negative delay is refused, as
    [time.sleep] refuses it. *)
Module Stub.

Definition answering (raw : string) (prompt : string) (w : unit)
  : (exn + string) * unit := (inr raw, w).

Definition raising (e : exn) (prompt : string) (w : unit)
  : (exn + string) * unit := (inl e, w).

Definition negative_sleep : exn :=
  Exn "ValueError" "sleep length must be non-negative".

Definition no_sleep (seconds : Q) (w : unit) : option exn * unit :=
  if Qle_bool (0 # 1)%Q seconds then (None, w) else (Some negative_sleep, w).

(** The analysis of a chunk with the default arguments, from an empty
    trace. *)
Definition analyze (invoke : string -> unit -> (exn + string) * unit)
           (chunk : string) : (exn + dict) * (unit * list LLMIntegration.event) :=
  LLMIntegration.analyze_code_chunk unit invoke no_sleep Reader.parse_object
    chunk LLMIntegration.default_max_retries LLMIntegration.default_base_delay
    (tt, []).

(** [JsonOutputParser().parse] on the reader. *)
Definition parse_json (text : string) : exn + json :=
  match Reader.loads text with
  | Some v => inr v
  | None => inl (Exn "OutputParserException" ("Invalid json output: " ++ text))
  end.

(** A vector store that is built from any document; on no document the
    library looks for the first embedding and raises. *)
Definition faiss_ok (docs : list KnowledgeExtractor.chunk_info) : option exn :=
  match docs with
  | [] => Some (Exn "IndexError" "list index out of range")
  | _ :: _ => None
  end.

(** The outcome of the analysis when the oracle answers [raw] to every
    prompt. *)
Definition outcome_for (raw : string) (chunk : string) : exn + dict :=
  fst (analyze (answering raw) chunk).

Definition chunk_a : KnowledgeExtractor.chunk_info :=
  KnowledgeExtractor.Chunk "a.py" "def f(): pass" 0.

Definition chunk_b : KnowledgeExtractor.chunk_info :=
  KnowledgeExtractor.Chunk "b.py" "def f(): pass" 1.

(** A response that holds one method and nothing else. *)
Definition methods_only : string :=
  PyStr.dq "{`methods`: [{`name`: `f`, `signature`: `def f()`, `description`: `does f`}]}".

Definition method_f : json :=
  JObj [("name", JStr "f"); ("signature", JStr "def f()");
        ("description", JStr "does f")].

Definition method_f_item : json :=
  JObj [("type", JStr "methods"); ("name", JStr "f");
        ("signature", JStr "def f()"); ("description", JStr "does f")].

(** The response of the specification's example. *)
Definition noisy : string :=
  PyStr.dq "noise{`overview`:`x`,`methods`:[],`complexity`:`low`,`notes`:``}trailing".

Definition noisy_object : dict :=
  [("overview", JStr "x"); ("methods", JArr []);
   ("complexity", JStr "low"); ("notes", JStr "")].

(** Two chunks and an oracle that tells them apart: on the prompt of the
    first it gives a method with a number, on any other prompt the same
    method with a boolean. *)
Definition chunk_c : KnowledgeExtractor.chunk_info :=
  KnowledgeExtractor.Chunk "c.py" "x = 1" 0.

Definition chunk_d : KnowledgeExtractor.chunk_info :=
  KnowledgeExtractor.Chunk "d.py" "y = True" 1.

Definition flag_as_number : string := PyStr.dq "{`methods`: [{`static`: 1}]}".

Definition flag_as_boolean : string :=
  PyStr.dq "{`methods`: [{`static`: true}]}".

Definition answering_by_prompt (prompt : string) (w : unit)
  : (exn + string) * unit :=
  if String.eqb prompt (LLMIntegration._build_prompt "x = 1")
  then (inr flag_as_number, w)
  else (inr flag_as_boolean, w).

Definition outcome_by_prompt (chunk : string) : exn + dict :=
  fst (analyze answering_by_prompt chunk).

End Stub.

(** A transport that plays a script: every call takes the next outcome;
    once the script is over every call raises. *)
Module Script.

Definition world : Type := list (exn + string).

Definition invoke (prompt : string) (w : world) : (exn + string) * world :=
  match w with
  | [] => (inl (Exn "RuntimeError" "no response left"), [])
  | r :: rest => (r, rest)
  end.

Definition sleep (seconds : Q) (w : world) : option exn * world :=
  if Qle_bool (0 # 1)%Q seconds then (None, w)
  else (Some Stub.negative_sleep, w).

End Script.

(** The sum of the delays slept in a run. *)
Definition total_sleep (tr : list LLMIntegration.event) : Q :=
  fold_right Qplus (0 # 1)%Q (LLMIntegration.delays tr).

(* ================================================================== *)
(** * The batch analysis: [LLMIntegration.analyze_code_chunks_batch] *)
(* ================================================================== *)

Module Batch.

(** The elements of [l] in the order in which they complete. *)
Definition completed {A : Type} (order : list nat) (l : list A) : list A :=
  flat_map (fun i => match nth_error l i with
                     | Some x => [x]
                     | None => []
                     end) order.

(** What the loop appends for one future: its result, or the dict of the
    error when [future.result()] raises. *)
Definition result_of (outcome : exn + dict) : dict :=
  match outcome with
  | inr result => result
  | inl e => [("error", JStr (exn_str e))]
  end.

(** [outcomes] holds, for every chunk in turn, what its future gives. *)
Definition analyze_code_chunks_batch (outcomes : list (exn + dict))
           (order : list nat) : list dict :=
  map result_of (completed order outcomes).

End Batch.

(* ================================================================== *)
(** * Reading the code base: [CodeReader] *)
(* ================================================================== *)

Module CodeReader.
Import PyStr KnowledgeExtractor.

(** [s.endswith(suffix)] *)
Definition endswith (s suffix : string) : bool :=
  prefix (rev suffix) (rev s).

Definition default_extensions : list string :=
  [".py"; ".js"; ".ts"; ".java"; ".cpp"; ".c"; ".cs"; ".go"; ".rb"; ".php";
   ".rs"; ".scala"; ".kt"; ".swift"; ".m"; ".h"; ".sh"; ".bat"; ".pl";
   ".sql"].

(** [file_extensions or [...]] in [__init__]: [None] and the empty list
    give the default. *)
Definition init_extensions (file_extensions : option (list string))
  : list string :=
  match file_extensions with
  | None => default_extensions
  | Some [] => default_extensions
  | Some (ext :: exts) => ext :: exts
  end.

(** [_is_code_file], and the test of the walk in
    [read_and_chunk_codebase]. *)
Definition _is_code_file (file_extensions : list string) (filename : string)
  : bool :=
  existsb (fun ext => endswith (lower filename) ext) file_extensions.

(** A loaded document: [metadata.get('source')] and [page_content]. *)
Record document : Type :=
  Document { source : option string; page_content : string }.

(** [doc.metadata.get('source', 'unknown')] *)
Definition source_or (default : string) (doc : document) : string :=
  match source doc with
  | Some s => s
  | None => default
  end.

(** The comprehension over [enumerate(split_docs)], counting from
    [idx]. *)
Fixpoint chunks_from (idx : nat) (split_docs : list document)
  : list chunk_info :=
  match split_docs with
  | [] => []
  | doc :: rest =>
      Chunk (source_or "unknown" doc) (page_content doc) (Z.of_nat idx)
      :: chunks_from (S idx) rest
  end.

Section Reader.
Variable file_extensions : list string.
(** [os.path.join] *)
Variable path_join : string -> string -> string.
(** [TextLoader(path, encoding="utf-8").load()] *)
Variable text_load : string -> exn + list document.
(** [RecursiveCharacterTextSplitter(...).split_documents] *)
Variable split_documents : list document -> list document.

(** The paths kept by the walk; [walk] is what [os.walk] yields, the
    directories with their files. *)
Definition code_files (walk : list (string * list string)) : list string :=
  flat_map (fun dir => map (path_join (fst dir))
                           (filter (_is_code_file file_extensions) (snd dir)))
           walk.

(** The loop that loads the files: a file whose loading raises is logged
    and left out. *)
Definition load_all (paths : list string) : list document :=
  flat_map (fun path => match text_load path with
                        | inl _ => []
                        | inr docs => docs
                        end) paths.

Definition read_and_chunk_codebase (walk : list (string * list string))
  : list chunk_info :=
  match code_files walk with
  | [] => []
  | path :: paths =>
      chunks_from 0 (split_documents (load_all (path :: paths)))
  end.


End Reader.

End CodeReader.

(* ================================================================== *)
(** * Cloning: [RepoCloner] *)
(* ================================================================== *)

Module RepoCloner.

Section Cloner.
(** The file system, [os.path.exists] on it, and [Repo.clone_from]:
    [Some e] when it raises [e]. *)
Variable FS : Type.
Variable path_exists : FS -> string -> bool.
Variable clone_from : string -> string -> FS -> option exn * FS.

(** [clone], under the lock of the class. *)
Definition clone (repo_url target_dir : string) (fs : FS)
  : (exn + string) * FS :=
  if path_exists fs target_dir then (inr target_dir, fs)
  else
    match clone_from repo_url target_dir fs with
    | (Some e, fs') => (inl e, fs')
    | (None, fs') => (inr target_dir, fs')
    end.

End Cloner.

End RepoCloner.

(** A file system that is the list of its paths, and a [clone_from] that
    creates the target directory. *)
Module DiskStub.

Definition disk : Type := list string.

Definition path_exists (fs : disk) (path : string) : bool :=
  existsb (String.eqb path) fs.

Definition clone_from (repo_url target_dir : string) (fs : disk)
  : option exn * disk := (None, target_dir :: fs).

(** A loader that fails on one path and gives one document for any
    other. *)
Definition text_load (bad path : string) : exn + list CodeReader.document :=
  if String.eqb path bad
  then inl (Exn "RuntimeError" ("Error loading " ++ path))
  else inr [CodeReader.Document (Some path) "pass"].

Definition path_join (root file : string) : string := root ++ "/" ++ file.

(** A splitter that cuts nothing. *)
Definition split_documents (docs : list CodeReader.document)
  : list CodeReader.document := docs.

End DiskStub.

(* ================================================================== *)
(** * Conditions on results *)
(* ================================================================== *)

Module Outcome.
Import KnowledgeExtractor.

(** The value under ['methods'] is one that a [for] loop cannot iterate:
    [None], a boolean or a number. *)
Definition methods_not_iterable (fut : future) : bool :=
  match snd fut with
  | inl _ => false
  | inr result =>
      match Dict.get "methods" result with
      | Some JNull => true
      | Some (JBool _) => true
      | Some (JNum _) => true
      | _ => false
      end
  end.

Definition is_object (v : json) : bool :=
  match v with JObj _ => true | _ => false end.

(** The value under ['methods'] cannot be iterated, or one of the values
    that its iteration gives is not a dict. *)
Definition methods_not_objects (fut : future) : bool :=
  match snd fut with
  | inl _ => false
  | inr result =>
      match Dict.get "methods" result with
      | Some ms =>
          match py_iter ms with
          | inl _ => true
          | inr l => negb (forallb is_object l)
          end
      | None => false
      end
  end.

(** The test of the chain of [place] that sends an item to [methods],
    and the one that sends it to [notes]. *)
Definition to_methods (item : json) : bool :=
  negb (type_is "overview" item) && type_is "methods" item.

Definition to_notes (item : json) : bool :=
  negb (type_is "overview" item) && negb (type_is "methods" item)
  && negb (type_is "complexity" item) && type_is "notes" item.

End Outcome.

(* ================================================================== *)
(** * Facts on strings *)
(* ================================================================== *)

Section StringFacts.
Import PyStr.
Local Open Scope string_scope.

Lemma sapp_nil_r (s : string) : s ++ "" = s.
Proof. induction s as [|c s IH]; simpl; [reflexivity | now rewrite IH]. Qed.

Lemma sapp_assoc (a b c : string) : (a ++ b) ++ c = a ++ b ++ c.
Proof. induction a as [|x a IH]; simpl; [reflexivity | now rewrite IH]. Qed.

Lemma slength_app (a b : string) :
  String.length (a ++ b) = String.length a + String.length b.
Proof. induction a as [|x a IH]; simpl; [reflexivity | now rewrite IH]. Qed.

Lemma rev_onto_spec (s acc : string) : rev_onto s acc = rev s ++ acc.
Proof.
  unfold rev. revert acc.
  induction s as [|c s IH]; intro acc; simpl; [reflexivity|].
  rewrite (IH (String c acc)), (IH (String c "")), sapp_assoc.
  reflexivity.
Qed.

Lemma rev_cons (c : ascii) (s : string) : rev (String c s) = rev s ++ String c "".
Proof. unfold rev at 1. simpl. apply rev_onto_spec. Qed.

Lemma rev_app (a b : string) : rev (a ++ b) = rev b ++ rev a.
Proof.
  induction a as [|x a IH]; simpl.
  - now rewrite sapp_nil_r.
  - now rewrite !rev_cons, IH, sapp_assoc.
Qed.

Lemma rev_involutive (s : string) : rev (rev s) = s.
Proof.
  induction s as [|c s IH]; [reflexivity|].
  now rewrite rev_cons, rev_app, IH.
Qed.

Lemma has_char_app (c : ascii) (a b : string) :
  has_char c (a ++ b) = has_char c a || has_char c b.
Proof.
  induction a as [|x a IH]; simpl; [reflexivity|].
  now rewrite IH, orb_assoc.
Qed.

Lemma has_char_rev (c : ascii) (s : string) : has_char c (rev s) = has_char c s.
Proof.
  induction s as [|x s IH]; [reflexivity|].
  rewrite rev_cons, has_char_app, IH. simpl.
  rewrite orb_false_r. apply orb_comm.
Qed.

Lemma lstrip_length (s : string) :
  (String.length (lstrip s) <= String.length s)%nat.
Proof.
  induction s as [|c s IH]; simpl; [lia|].
  destruct (isspace c); simpl; lia.
Qed.

End StringFacts.

(* ================================================================== *)
(** * Facts on the normalisation *)
(* ================================================================== *)

Section CleanFacts.
Import PyStr Clean.
Local Open Scope string_scope.

Lemma sub_leading_none (s : string) :
  has_char "{" s = false -> sub_leading s = "".
Proof.
  induction s as [|c s IH]; simpl; [reflexivity|].
  destruct (Ascii.eqb c "{"); simpl; [discriminate | exact IH].
Qed.

Lemma sub_leading_split (pre rest : string) :
  has_char "{" pre = false ->
  sub_leading (pre ++ String "{" rest) = String "{" rest.
Proof.
  induction pre as [|c pre IH]; simpl; [reflexivity|].
  destruct (Ascii.eqb c "{"); simpl; [discriminate | exact IH].
Qed.

Lemma sub_leading_has_no_new (c : ascii) (s : string) :
  has_char c s = false -> has_char c (sub_leading s) = false.
Proof.
  induction s as [|x s IH]; simpl; [reflexivity|].
  destruct (Ascii.eqb x "{"); simpl; [tauto|].
  intro H. apply orb_false_iff in H. now apply IH.
Qed.

Lemma drop_to_close_none (s : string) :
  has_char "}" s = false -> drop_to_close s = "".
Proof.
  induction s as [|c s IH]; simpl; [reflexivity|].
  destruct (Ascii.eqb c "}"); simpl; [discriminate | exact IH].
Qed.

Lemma drop_to_close_split (pre rest : string) :
  has_char "}" pre = false ->
  drop_to_close (pre ++ String "}" rest) = String "}" rest.
Proof.
  induction pre as [|c pre IH]; simpl; [reflexivity|].
  destruct (Ascii.eqb c "}"); simpl; [discriminate | exact IH].
Qed.

Lemma sub_trailing_none (s : string) :
  has_char "}" s = false -> sub_trailing s = "".
Proof.
  intro H. unfold sub_trailing.
  rewrite drop_to_close_none; [reflexivity | now rewrite has_char_rev].
Qed.

Lemma sub_trailing_split (x post : string) :
  has_char "}" post = false ->
  sub_trailing (x ++ String "}" post) = x ++ "}".
Proof.
  intro H. unfold sub_trailing.
  rewrite rev_app, rev_cons, sapp_assoc. simpl.
  rewrite drop_to_close_split by now rewrite has_char_rev.
  change (String "}" (rev x)) with ("}" ++ rev x).
  rewrite rev_app, rev_involutive. reflexivity.
Qed.

Lemma sub_commas_from_fuel (fuel1 : nat) :
  forall (fuel2 : nat) (s : string),
    (String.length s <= fuel1)%nat -> (String.length s <= fuel2)%nat ->
    sub_commas_from fuel1 s = sub_commas_from fuel2 s.
Proof.
  induction fuel1 as [|f1 IH]; intros fuel2 s H1 H2.
  - destruct s; simpl in H1; [|lia]. destruct fuel2; reflexivity.
  - destruct fuel2 as [|f2].
    + destruct s; simpl in H2; [reflexivity | lia].
    + destruct s as [|c r]; [reflexivity|]. simpl in H1, H2. simpl.
      pose proof (lstrip_length r) as Hl.
      destruct (Ascii.eqb c ",").
      * destruct (lstrip r) as [|b r'] eqn:E.
        -- f_equal. apply IH; lia.
        -- simpl in Hl. destruct (closer b); f_equal; apply IH; lia.
      * f_equal. apply IH; lia.
Qed.

Lemma sub_commas_nil : sub_commas "" = "".
Proof. reflexivity. Qed.

(** The scan, one step at a time. *)
Lemma sub_commas_cons (c : ascii) (r : string) :
  sub_commas (String c r) =
    if Ascii.eqb c "," then
      match lstrip r with
      | String b r' =>
          if closer b then String b (sub_commas r')
          else String c (sub_commas r)
      | EmptyString => String c (sub_commas r)
      end
    else String c (sub_commas r).
Proof.
  unfold sub_commas. simpl.
  pose proof (lstrip_length r) as Hl.
  destruct (Ascii.eqb c ","); [destruct (lstrip r) as [|b r'] eqn:E|];
    [| simpl in Hl; destruct (closer b) |]; reflexivity
    || (f_equal; apply sub_commas_from_fuel; lia).
Qed.

Lemma lstrip_app_found (r x : string) (b : ascii) (r' : string) :
  lstrip r = String b r' -> lstrip (r ++ x) = String b (r' ++ x).
Proof.
  induction r as [|c r IH]; simpl; [discriminate|].
  destruct (isspace c); [exact IH|].
  intro H. injection H as -> ->. reflexivity.
Qed.

Lemma lstrip_app_blank (r x : string) :
  lstrip r = "" -> lstrip (r ++ x) = lstrip x.
Proof.
  induction r as [|c r IH]; simpl; [reflexivity|].
  destruct (isspace c); [exact IH | discriminate].
Qed.

Lemma closer_not_space (b : ascii) : closer b = true -> isspace b = false.
Proof.
  unfold closer. intro H. apply orb_true_iff in H.
  destruct H as [H|H]; apply Ascii.eqb_eq in H; subst b; reflexivity.
Qed.

Lemma closer_not_comma (b : ascii) : closer b = true -> Ascii.eqb b "," = false.
Proof.
  unfold closer. intro H. apply orb_true_iff in H.
  destruct H as [H|H]; apply Ascii.eqb_eq in H; subst b; reflexivity.
Qed.

(** A match of the scan never runs over a comma. *)
Lemma sub_commas_app_comma (a t : string) :
  sub_commas (a ++ String "," t) = sub_commas a ++ sub_commas (String "," t).
Proof.
  remember (String.length a) as n eqn:Hn.
  assert (Hle : (String.length a <= n)%nat) by lia. clear Hn.
  revert a Hle.
  induction n as [|n IH]; intros a Hle.
  - destruct a; simpl in Hle; [reflexivity | lia].
  - destruct a as [|c r]; [reflexivity|].
    simpl in Hle.
    change (String c r ++ String "," t) with (String c (r ++ String "," t)).
    rewrite (sub_commas_cons c r), (sub_commas_cons c (r ++ String "," t)).
    pose proof (lstrip_length r) as Hl.
    destruct (Ascii.eqb c ",").
    + destruct (lstrip r) as [|b r'] eqn:E.
      * rewrite (lstrip_app_blank _ _ E). simpl.
        rewrite IH by lia. reflexivity.
      * rewrite (lstrip_app_found _ _ _ _ E). simpl in Hl.
        destruct (closer b); simpl; rewrite IH by lia; reflexivity.
    + simpl. rewrite IH by lia. reflexivity.
Qed.

Lemma sub_commas_match (ws : string) (b : ascii) (rest : string) :
  lstrip ws = "" -> closer b = true ->
  sub_commas (String "," (ws ++ String b rest)) = String b (sub_commas rest).
Proof.
  intros Hws Hb. rewrite sub_commas_cons. simpl.
  rewrite (lstrip_app_blank _ _ Hws). simpl.
  rewrite (closer_not_space _ Hb), Hb. reflexivity.
Qed.

Lemma sub_commas_no_comma (s : string) :
  has_char "," s = false -> sub_commas s = s.
Proof.
  induction s as [|c r IH]; [reflexivity|].
  simpl. intro H. apply orb_false_iff in H. destruct H as [Hc Hr].
  rewrite sub_commas_cons, Hc, (IH Hr). reflexivity.
Qed.

(** A text that ends with a closing brace still does after the scan. *)
Lemma sub_commas_keeps_last (x : string) :
  exists y, sub_commas (x ++ "}") = y ++ "}".
Proof.
  remember (String.length x) as n eqn:Hn.
  assert (Hle : (String.length x <= n)%nat) by lia. clear Hn.
  revert x Hle.
  induction n as [|n IH]; intros x Hle.
  - destruct x; simpl in Hle; [|lia]. exists "". reflexivity.
  - destruct x as [|c r]; [exists ""; reflexivity|].
    simpl in Hle.
    change (String c r ++ "}") with (String c (r ++ "}")).
    rewrite sub_commas_cons.
    pose proof (lstrip_length r) as Hl.
    destruct (IH r ltac:(lia)) as [y Hy].
    destruct (Ascii.eqb c ",").
    + destruct (lstrip r) as [|b r'] eqn:E.
      * rewrite (lstrip_app_blank _ _ E). simpl.
        exists "". reflexivity.
      * rewrite (lstrip_app_found _ _ _ _ E). simpl in Hl.
        destruct (closer b).
        -- destruct (IH r' ltac:(lia)) as [y' Hy'].
           exists (String b y'). rewrite Hy'. reflexivity.
        -- exists (String c y). rewrite Hy. reflexivity.
    + exists (String c y). rewrite Hy. reflexivity.
Qed.

Lemma strip_braced (y : string) :
  strip (String "{" (y ++ "}")) = String "{" (y ++ "}").
Proof.
  unfold strip, rstrip. simpl lstrip.
  rewrite rev_cons, rev_app. simpl.
  change (String "}" (rev y ++ "{")) with ("}" ++ rev y ++ "{").
  rewrite rev_app, rev_app, rev_involutive. reflexivity.
Qed.

Lemma clean_braced (pre body post : string) :
  has_char "{" pre = false -> has_char "}" post = false ->
  _clean_json_string (pre ++ "{" ++ body ++ "}" ++ post)
  = sub_commas ("{" ++ body ++ "}").
Proof.
  intros Hpre Hpost. unfold _clean_json_string. simpl.
  rewrite (sub_leading_split pre _ Hpre).
  change (String "{" (body ++ String "}" post))
    with (String "{" body ++ String "}" post).
  rewrite (sub_trailing_split _ _ Hpost). simpl.
  rewrite sub_commas_cons. simpl.
  destruct (sub_commas_keeps_last body) as [y Hy].
  rewrite Hy. apply strip_braced.
Qed.

Lemma clean_unbraced (s : string) :
  has_char "{" s = false \/ has_char "}" s = false ->
  _clean_json_string s = "".
Proof.
  intros [H|H]; unfold _clean_json_string.
  - rewrite (sub_leading_none s H). reflexivity.
  - rewrite (sub_trailing_none (sub_leading s)); [reflexivity|].
    now apply sub_leading_has_no_new.
Qed.

End CleanFacts.

(* ================================================================== *)
(** * Facts on the retry loop *)
(* ================================================================== *)

Section ClientFacts.
Import PyStr Clean LLMIntegration.
Variable World : Type.
Variable llm_invoke : string -> World -> (exn + string) * World.
Variable time_sleep : Q -> World -> option exn * World.
Variable parser_invoke : string -> exn + dict.

Local Abbreviation attempt_once := (attempt_once World llm_invoke parser_invoke).
Local Abbreviation retry_loop := (retry_loop World llm_invoke time_sleep parser_invoke).
Local Abbreviation accepts_delays := (accepts_delays World time_sleep).

Lemma attempt_once_trace (chunk : string) (w : World) (tr : list event)
      (r : exn + dict) (st' : state World) :
  attempt_once chunk (w, tr) = (r, st') ->
  snd st' = tr ++ [Invoked (_build_prompt chunk)].
Proof.
  unfold LLMIntegration.attempt_once.
  destruct (llm_invoke (_build_prompt chunk) w) as [[e|raw] w'];
    intro H; injection H as _ <-; reflexivity.
Qed.

(** One iteration of the loop. *)
Lemma retry_loop_step (chunk : string) (max_retries : Z) (base_delay : Q)
      (todo : nat) (attempt : Z) (st : state World) :
  retry_loop (S todo) attempt chunk max_retries base_delay st
  = match attempt_once chunk st with
    | (inr result, st') => (inr result, st')
    | (inl e, (w', tr')) =>
        if is_rate_limit (exn_str e) then
          if (float_range <=? attempt)%Z then (inl int_too_large, (w', tr'))
          else
            match time_sleep (Qmult base_delay (inject_Z (2 ^ attempt))) w'
            with
            | (Some e', w'') => (inl e', (w'', tr'))
            | (None, w'') =>
                retry_loop todo (attempt + 1) chunk max_retries base_delay
                           (w'', tr' ++ [Slept (Qmult base_delay
                                                      (inject_Z (2 ^ attempt)))])
            end
        else (inl e, (w', tr'))
    end.
Proof. reflexivity. Qed.

(** The loop when every attempt fails with an exception taken for a rate
    limit, the attempts staying below [2 ** 1024] and their delays being
    accepted by the sleep. *)
Lemma retry_loop_failing (chunk : string) (max_retries : Z) (base_delay : Q) :
  (forall st, exists e st',
      attempt_once chunk st = (inl e, st')
      /\ is_rate_limit (exn_str e) = true) ->
  forall (todo a : nat) (w : World) (tr : list event),
    (Z.of_nat (a + todo) <= float_range)%Z ->
    accepts_delays base_delay (a + todo) ->
    exists w',
      retry_loop todo (Z.of_nat a) chunk max_retries base_delay (w, tr)
      = (inr (rate_limit_exceeded max_retries),
         (w', tr ++ flat_map (limited_round chunk base_delay) (seq a todo))).
Proof.
  intros Hfail todo.
  induction todo as [|todo IH]; intros a w tr Hrange Hacc.
  - exists w. simpl. now rewrite app_nil_r.
  - destruct (Hfail (w, tr)) as (e & [w1 tr1] & Hatt & Hrl).
    pose proof (attempt_once_trace _ _ _ _ _ Hatt) as Htr.
    simpl in Htr. subst tr1.
    rewrite retry_loop_step, Hatt, Hrl.
    assert (Hlt : (float_range <=? Z.of_nat a)%Z = false)
      by (apply Z.leb_gt; lia).
    rewrite Hlt.
    pose proof (Hacc a w1 ltac:(lia)) as Hsleep.
    destruct (time_sleep (Qmult base_delay (inject_Z (2 ^ Z.of_nat a))) w1)
      as [o w2].
    simpl in Hsleep. subst o.
    replace (Z.of_nat a + 1)%Z with (Z.of_nat (S a)) by lia.
    destruct (IH (S a) w2
                 ((tr ++ [Invoked (_build_prompt chunk)])
                    ++ [Slept (Qmult base_delay (inject_Z (2 ^ Z.of_nat a)))]))
      as [w' Hw'].
    + lia.
    + replace (S a + todo)%nat with (a + S todo)%nat by lia. exact Hacc.
    + exists w'. rewrite Hw'. simpl. unfold limited_round at 2.
      rewrite <- !app_assoc. reflexivity.
Qed.

Lemma retry_loop_limited (chunk : string) (max_retries : Z) (base_delay : Q) :
  (forall w0, exists e w1,
      llm_invoke (_build_prompt chunk) w0 = (inl e, w1)
      /\ is_rate_limit (exn_str e) = true) ->
  forall (todo a : nat) (w : World) (tr : list event),
    (Z.of_nat (a + todo) <= float_range)%Z ->
    accepts_delays base_delay (a + todo) ->
    exists w',
      retry_loop todo (Z.of_nat a) chunk max_retries base_delay (w, tr)
      = (inr (rate_limit_exceeded max_retries),
         (w', tr ++ flat_map (limited_round chunk base_delay) (seq a todo))).
Proof.
  intro Hlim. apply retry_loop_failing.
  intros [w0 tr0]. destruct (Hlim w0) as (e & w1 & Hinv & Hrl).
  exists e, (w1, tr0 ++ [Invoked (_build_prompt chunk)]).
  split; [|exact Hrl].
  unfold LLMIntegration.attempt_once. now rewrite Hinv.
Qed.

Lemma attempts_limited (chunk : string) (base_delay : Q) (l : list nat) :
  attempts (flat_map (limited_round chunk base_delay) l) = List.length l.
Proof.
  unfold attempts. induction l as [|k l IH]; simpl; [reflexivity|].
  now rewrite IH.
Qed.

Lemma delays_limited (chunk : string) (base_delay : Q) (l : list nat) :
  delays (flat_map (limited_round chunk base_delay) l)
  = map (fun k => Qmult base_delay (inject_Z (2 ^ Z.of_nat k))) l.
Proof.
  unfold delays. induction l as [|k l IH]; simpl; [reflexivity|].
  now rewrite IH.
Qed.

(** An exception that is not taken for a rate limit leaves the loop at
    once, in the state of the attempt that raised it. *)
Lemma retry_loop_reraises (chunk : string) (max_retries : Z) (base_delay : Q)
      (todo : nat) (attempt : Z) (st st' : state World) (e : exn) :
  attempt_once chunk st = (inl e, st') ->
  is_rate_limit (exn_str e) = false ->
  retry_loop (S todo) attempt chunk max_retries base_delay st = (inl e, st').
Proof.
  intros Hatt Hrl. simpl. rewrite Hatt. destruct st' as [w' tr'].
  now rewrite Hrl.
Qed.

End ClientFacts.

(* ================================================================== *)
(** * Facts on the synchronous merge *)
(* ================================================================== *)

Section MergeFacts.
Import KnowledgeExtractor.

Lemma add_new_methods_spec (ms : list json) (k : knowledge) :
  add_new_methods ms k
  = Knowledge (project_info k) (overview k) (dedup_onto (methods k) ms)
              (complexity k) (notes k).
Proof.
  unfold add_new_methods, dedup_onto. revert k.
  induction ms as [|m ms IH]; intro k; simpl.
  - now destruct k.
  - rewrite IH. destruct (py_in m (methods k)); reflexivity.
Qed.

Lemma dedup_onto_app (acc ms ms' : list json) :
  dedup_onto acc (ms ++ ms') = dedup_onto (dedup_onto acc ms) ms'.
Proof. unfold dedup_onto. apply fold_left_app. Qed.

(** One future: an exception when the iteration over its methods raises,
    and otherwise the aggregate with what the future adds. *)
Lemma merge_spec (k : knowledge) (fut : future) :
  merge k fut =
    match methods_of fut with
    | inl e => inl e
    | inr ms =>
        inr (Knowledge (project_info k) (overview k ++ overview_of fut)
                       (dedup_onto (methods k) ms)
                       (complexity k ++ complexity_of fut)
                       (notes k ++ notes_of fut))
    end.
Proof.
  destruct fut as [c [e|result]];
    unfold merge, methods_of, overview_of, complexity_of, notes_of; simpl.
  - unfold add_note. now rewrite !app_nil_r.
  - fold (has_any_key result). unfold has_any_key, Dict.mem, keyed.
    destruct k as [pi ov me co no].
    destruct (Dict.get "overview" result) as [v1|];
      destruct (Dict.get "methods" result) as [ms|];
      [destruct (py_iter ms) as [e|l] | | destruct (py_iter ms) as [e|l] | ];
      destruct (Dict.get "complexity" result) as [v3|];
      destruct (Dict.get "notes" result) as [v4|];
      simpl; rewrite ?add_new_methods_spec; simpl;
      rewrite ?app_nil_r; reflexivity.
Qed.

Lemma merge_all_raises (l : list future) :
  forall k, existsb (fun fut => raises (methods_of fut)) l = true ->
            exists e, merge_all k l = inl e.
Proof.
  induction l as [|fut l IH]; intros k H; simpl in H; [discriminate|].
  simpl. rewrite merge_spec.
  destruct (methods_of fut) as [e|ms]; [now exists e|].
  simpl in H. now apply IH.
Qed.

Lemma merge_all_returns (l : list future) :
  forall k, existsb (fun fut => raises (methods_of fut)) l = false ->
    merge_all k l
    = inr (Knowledge (project_info k)
                     (overview k ++ flat_map overview_of l)
                     (dedup_onto (methods k)
                                 (flat_map (fun fut => unwrap (methods_of fut)) l))
                     (complexity k ++ flat_map complexity_of l)
                     (notes k ++ flat_map notes_of l)).
Proof.
  induction l as [|fut l IH]; intros k H; simpl in H |- *.
  - rewrite !app_nil_r. now destruct k.
  - rewrite merge_spec.
    destruct (methods_of fut) as [e|ms]; simpl in H; [discriminate|].
    rewrite (IH _ H). simpl.
    now rewrite dedup_onto_app, <- !app_assoc.
Qed.

Lemma dedup_onto_in (ms : list json) :
  forall acc r, In r (dedup_onto acc ms) -> In r acc \/ In r ms.
Proof.
  unfold dedup_onto.
  induction ms as [|m ms IH]; intros acc r H; simpl in *; [now left|].
  apply IH in H. destruct H as [H|H]; [|now right; right].
  destruct (py_in m acc); [now left|].
  apply in_app_or in H. destruct H as [H|[H|[]]]; [now left | now right; left].
Qed.

Lemma dedup_onto_keeps (ms : list json) :
  forall acc r, In r acc -> In r (dedup_onto acc ms).
Proof.
  unfold dedup_onto.
  induction ms as [|m ms IH]; intros acc r H; simpl; [exact H|].
  apply IH. destruct (py_in m acc); [exact H|].
  apply in_or_app. now left.
Qed.

Lemma dedup_onto_covers (ms : list json) :
  forall acc x, In x ms ->
    exists r, In r (dedup_onto acc ms) /\ (r = x \/ py_eq r x = true).
Proof.
  induction ms as [|m ms IH]; intros acc x H; [destruct H|].
  destruct H as [->|H].
  - change (dedup_onto acc (x :: ms))
      with (dedup_onto (if py_in x acc then acc else acc ++ [x]) ms).
    destruct (py_in x acc) eqn:E.
    + apply existsb_exists in E. destruct E as (r & Hr & Hrx).
      exists r. split; [now apply dedup_onto_keeps | now right].
    + exists x. split; [|now left].
      apply dedup_onto_keeps, in_or_app. right. now left.
  - change (dedup_onto acc (m :: ms))
      with (dedup_onto (if py_in m acc then acc else acc ++ [m]) ms).
    now apply IH.
Qed.

Lemma dedup_onto_covered (ms ms' : list json) :
  Permutation ms ms' -> covered (dedup_onto [] ms) (dedup_onto [] ms').
Proof.
  intros HP r Hr.
  apply dedup_onto_in in Hr. destruct Hr as [[]|Hr].
  apply (Permutation_in _ HP) in Hr.
  now apply dedup_onto_covers.
Qed.

Lemma py_in_false (x : json) (l : list json) :
  py_in x l = false -> Forall (fun y => py_eq y x = false) l.
Proof.
  unfold py_in. induction l as [|y l IH]; simpl; intro H; constructor.
  - now apply orb_false_iff in H.
  - apply IH. now apply orb_false_iff in H.
Qed.

Lemma distinct_snoc (l : list json) (x : json) :
  distinct l -> py_in x l = false -> distinct (l ++ [x]).
Proof.
  unfold distinct. intros Hl Hx. apply py_in_false in Hx.
  induction Hl as [|a l Ha Hl IH]; simpl.
  - constructor; constructor.
  - inversion Hx as [|? ? Hax Hx']; subst.
    constructor; [|now apply IH].
    apply Forall_app. split; [exact Ha | now constructor].
Qed.

Lemma dedup_onto_distinct (ms : list json) :
  forall acc, distinct acc -> distinct (dedup_onto acc ms).
Proof.
  unfold dedup_onto.
  induction ms as [|m ms IH]; intros acc H; simpl; [exact H|].
  apply IH. destruct (py_in m acc) eqn:E; [exact H|].
  now apply distinct_snoc.
Qed.

End MergeFacts.

(* ================================================================== *)
(** * Facts on the order of completion *)
(* ================================================================== *)

Section OrderFacts.
Import KnowledgeExtractor.
Context {A : Type}.

Lemma pick_all (pre l : list A) :
  flat_map (fun i => match nth_error (pre ++ l) i with
                     | Some x => [x]
                     | None => []
                     end) (seq (List.length pre) (List.length l)) = l.
Proof.
  revert pre. induction l as [|x l IH]; intro pre; [reflexivity|].
  simpl. rewrite nth_error_app2, Nat.sub_diag by lia. simpl. f_equal.
  specialize (IH (pre ++ [x])).
  rewrite <- app_assoc, length_app, Nat.add_1_r in IH. exact IH.
Qed.

Lemma set_nth_length {B : Type} (i : nat) (x : B) (l : list B) :
  List.length (set_nth i x l) = List.length l.
Proof.
  revert i. induction l as [|y l IH]; intros [|i]; simpl; auto.
Qed.

Lemma set_nth_same {B : Type} (i : nat) (x : B) (l : list B) :
  (i < List.length l)%nat -> nth_error (set_nth i x l) i = Some x.
Proof.
  revert i. induction l as [|y l IH]; intros [|i] H; simpl in *;
    try lia; [reflexivity | apply IH; lia].
Qed.

Lemma set_nth_other {B : Type} (i j : nat) (x : B) (l : list B) :
  i <> j -> nth_error (set_nth i x l) j = nth_error l j.
Proof.
  revert i j. induction l as [|y l IH]; intros [|i] [|j] H; simpl;
    try reflexivity; [congruence | apply IH; congruence].
Qed.

Lemma store_length (tasks : list (exn + A)) (order : list nat) :
  forall slots,
    List.length (fold_left (store tasks) order slots) = List.length slots.
Proof.
  induction order as [|i order IH]; intro slots; simpl; [reflexivity|].
  rewrite IH. unfold store.
  destruct (nth_error tasks i) as [[e|v]|];
    try reflexivity; apply set_nth_length.
Qed.

Lemma store_stable (tasks : list (exn + A)) (j : nat) (v : A)
      (order : list nat) :
  nth_error tasks j = Some (inr v) ->
  forall slots, nth_error slots j = Some (Some v) ->
                nth_error (fold_left (store tasks) order slots) j
                = Some (Some v).
Proof.
  intro Hj. induction order as [|i order IH]; intros slots H; simpl;
    [exact H|].
  apply IH. unfold store.
  destruct (Nat.eq_dec i j) as [->|Hij].
  - rewrite Hj. apply set_nth_same.
    apply nth_error_Some. congruence.
  - destruct (nth_error tasks i) as [[e|v']|]; auto.
    now rewrite set_nth_other.
Qed.

Lemma store_reached (tasks : list (exn + A)) (j : nat) (v : A)
      (order : list nat) :
  nth_error tasks j = Some (inr v) -> In j order ->
  forall slots, (j < List.length slots)%nat ->
                nth_error (fold_left (store tasks) order slots) j
                = Some (Some v).
Proof.
  intro Hj. induction order as [|i order IH]; intros Hin slots Hlen;
    [destruct Hin|].
  simpl. destruct (Nat.eq_dec i j) as [->|Hij].
  - apply store_stable; [exact Hj|].
    unfold store. rewrite Hj. now apply set_nth_same.
  - destruct Hin as [Hin|Hin]; [congruence|].
    apply IH; [exact Hin|].
    unfold store. destruct (nth_error tasks i) as [[e|v']|];
      rewrite ?set_nth_length; exact Hlen.
Qed.

Lemma gather_run_returns (tasks : list (exn + A)) (order : list nat) :
  existsb raises tasks = false ->
  forall slots,
    gather_run order tasks slots = inr (fold_left (store tasks) order slots).
Proof.
  intro Hno. induction order as [|i order IH]; intro slots; simpl;
    [reflexivity|].
  unfold store at 2.
  destruct (nth_error tasks i) as [[e|v]|] eqn:E; auto.
  apply nth_error_In in E.
  assert (H : existsb raises tasks = true)
    by (apply existsb_exists; now exists (inl e)).
  congruence.
Qed.

Lemma gather_run_raises (tasks : list (exn + A)) (order : list nat)
      (i : nat) (e : exn) :
  nth_error tasks i = Some (inl e) -> In i order ->
  forall slots, exists e', gather_run order tasks slots = inl e'.
Proof.
  intro Hi. induction order as [|j order IH]; intros Hin slots;
    [destruct Hin|].
  simpl. destruct (nth_error tasks j) as [[e'|v]|] eqn:E.
  - now exists e'.
  - destruct Hin as [->|Hin]; [congruence | now apply IH].
  - destruct Hin as [->|Hin]; [congruence | now apply IH].
Qed.

Lemma filled_returned (tasks : list (exn + A)) :
  existsb raises tasks = false ->
  filled (map returned tasks)
  = flat_map (fun t => match t with inl _ => [] | inr v => [v] end) tasks.
Proof.
  unfold filled. induction tasks as [|[e|v] tasks IH]; simpl; intro H;
    [reflexivity | discriminate | now rewrite IH].
Qed.

(** When every position is in [order], [gather] raises as soon as one task
    raises, and otherwise returns the values in the order of the tasks. *)
Lemma gather_spec (tasks : list (exn + A)) (order : list nat) :
  Permutation order (seq 0 (List.length tasks)) ->
  if existsb raises tasks
  then exists e, gather order tasks = inl e
  else gather order tasks
       = inr (flat_map (fun t => match t with inl _ => [] | inr v => [v] end)
                       tasks).
Proof.
  intro HP. unfold gather.
  destruct (existsb raises tasks) eqn:E.
  - apply existsb_exists in E. destruct E as ([e|v] & Hin & Hr);
      [|discriminate].
    apply In_nth_error in Hin. destruct Hin as [i Hi].
    assert (Hlt : (i < List.length tasks)%nat)
      by (apply nth_error_Some; congruence).
    assert (Hio : In i order).
    { apply (Permutation_in _ (Permutation_sym HP)), in_seq. lia. }
    destruct (gather_run_raises tasks order i e Hi Hio
                                (repeat None (List.length tasks))) as [e' He'].
    exists e'. now rewrite He'.
  - rewrite (gather_run_returns _ _ E). f_equal.
    rewrite <- (filled_returned _ E). f_equal.
    apply nth_error_ext. intro j.
    rewrite nth_error_map.
    destruct (nth_error tasks j) as [[e|v]|] eqn:Ej; simpl.
    + apply nth_error_In in Ej.
      assert (H : existsb raises tasks = true)
        by (apply existsb_exists; now exists (inl e)).
      congruence.
    + assert (Hlt : (j < List.length tasks)%nat)
        by (apply nth_error_Some; congruence).
      apply store_reached; [exact Ej | | now rewrite repeat_length].
      apply (Permutation_in _ (Permutation_sym HP)), in_seq. lia.
    + apply nth_error_None. rewrite store_length, repeat_length.
      now apply nth_error_None.
Qed.

End OrderFacts.

Lemma as_completed_perm (futures : list KnowledgeExtractor.future)
      (order : list nat) :
  Permutation order (seq 0 (List.length futures)) ->
  Permutation (KnowledgeExtractor.as_completed order futures) futures.
Proof.
  intro HP. unfold KnowledgeExtractor.as_completed.
  rewrite HP. pose proof (pick_all [] futures) as H. simpl in H.
  rewrite H. reflexivity.
Qed.

(* ================================================================== *)
(** * Facts on the asynchronous pipeline *)
(* ================================================================== *)

Section AsyncFacts.
Import KnowledgeExtractor.

Lemma dict_get_set_other (k k' : string) (v : json) (d : dict) :
  k' <> k -> Dict.get k (Dict.set k' v d) = Dict.get k d.
Proof.
  intro Hne. induction d as [|[k0 v0] d IH]; simpl.
  - destruct (String.eqb_spec k' k); [contradiction | reflexivity].
  - destruct (String.eqb_spec k0 k') as [->|Hk0]; simpl.
    + destruct (String.eqb_spec k' k); [contradiction | reflexivity].
    + destruct (String.eqb_spec k0 k); [reflexivity | exact IH].
Qed.

Lemma dict_update_get (k : string) (d : dict) :
  forall d0, Dict.mem k d = false ->
             Dict.get k (Dict.update d0 d) = Dict.get k d0.
Proof.
  unfold Dict.update, Dict.mem.
  induction d as [|[k' v] d IH]; intros d0 H; simpl in *; [reflexivity|].
  destruct (String.eqb_spec k' k) as [->|Hne]; [discriminate|].
  rewrite (IH _ H). now apply dict_get_set_other.
Qed.

Lemma typed_entry_placeable (ty : string) (c : chunk_info) (key : string)
      (v : json) :
  ty = "overview" \/ ty = "methods" \/ ty = "complexity" \/ ty = "notes" ->
  placeable (typed_entry ty c key v) = true.
Proof. intros [ -> | [ -> | [ -> | -> ] ] ]; reflexivity. Qed.

Lemma method_item_ok (m : json) :
  method_ok m = true ->
  exists item, method_item m = inr item /\ placeable item = true.
Proof.
  destruct m as [| | | | |d]; simpl; try discriminate.
  intro H. apply negb_true_iff in H.
  eexists. split; [reflexivity|].
  unfold placeable, type_is.
  rewrite (dict_update_get "type" d _ H). reflexivity.
Qed.

Lemma method_items_ok (l : list json) :
  forallb method_ok l = true ->
  exists items, method_items l = inr items
                /\ Forall (fun item => placeable item = true) items.
Proof.
  induction l as [|m l IH]; simpl; intro H.
  - exists []. split; [reflexivity | constructor].
  - apply andb_true_iff in H. destruct H as [Hm Hl].
    destruct (method_item_ok m Hm) as (item & -> & Hitem).
    destruct (IH Hl) as (items & -> & Hitems).
    exists (item :: items). split; [reflexivity | now constructor].
Qed.

(** A task returns a list that is not empty, of items that [place]
    appends. *)
Lemma process_ok (fut : future) :
  outcome_ok fut = true ->
  exists out, process_chunk_with_limit fut = inr out
              /\ out <> []
              /\ Forall (fun item => placeable item = true) out.
Proof.
  destruct fut as [c [e|result]]; unfold outcome_ok; simpl.
  - intros _. eexists. split; [reflexivity|].
    split; [discriminate | repeat constructor].
  - intro Hok.
    assert (Hms : exists items,
               match Dict.get "methods" result with
               | Some ms =>
                   match py_iter ms with
                   | inl e => inl e
                   | inr l => method_items l
                   end
               | None => inr []
               end = inr items
               /\ Forall (fun item => placeable item = true) items).
    { destruct (Dict.get "methods" result) as [[| | | |l|]|];
        try discriminate.
      - simpl. now apply method_items_ok.
      - exists []. split; [reflexivity | constructor]. }
    destruct Hms as (items & Hitems & Hplace).
    destruct (Dict.get "methods" result) as [ms|].
    + destruct (py_iter ms) as [e|l]; [discriminate|].
      rewrite Hitems.
      destruct items as [|item items];
        [| apply Forall_cons_iff in Hplace; destruct Hplace as [Hitem Hrest]];
        destruct (Dict.get "overview" result) as [v1|];
        destruct (Dict.get "complexity" result) as [v3|];
        destruct (Dict.get "notes" result) as [v4|];
        simpl; eexists; (split; [reflexivity|]);
        (split; [discriminate|]);
        repeat first [assumption | reflexivity
                      | apply Forall_app; split | constructor].
    + destruct (Dict.get "overview" result) as [v1|];
        destruct (Dict.get "complexity" result) as [v3|];
        destruct (Dict.get "notes" result) as [v4|];
        simpl; eexists; (split; [reflexivity|]);
        (split; [discriminate|]);
        repeat (constructor; [reflexivity|]); constructor.
Qed.

Lemma place_perm (k : knowledge) (item : json) :
  placeable item = true ->
  Permutation (entries k ++ [item]) (entries (place k item)).
Proof.
  assert (Hmove : forall l : list json, Permutation (l ++ [item]) (item :: l))
    by (intro l; symmetry; apply Permutation_cons_append).
  unfold placeable, place, entries. intro H.
  destruct k as [pi ov me co no]. simpl.
  destruct (type_is "overview" item); simpl.
  { rewrite <- !app_assoc. apply Permutation_app_head. simpl.
    rewrite !app_assoc. apply Hmove. }
  destruct (type_is "methods" item); simpl.
  { rewrite <- !app_assoc. do 2 apply Permutation_app_head. simpl.
    rewrite !app_assoc. apply Hmove. }
  destruct (type_is "complexity" item); simpl.
  { rewrite <- !app_assoc. do 3 apply Permutation_app_head. simpl.
    apply Hmove. }
  destruct (type_is "notes" item); simpl; [|discriminate].
  rewrite <- !app_assoc. reflexivity.
Qed.

Lemma place_list_perm (res : list json) :
  Forall (fun item => placeable item = true) res ->
  forall k, Permutation (entries k ++ res) (entries (fold_left place res k)).
Proof.
  induction 1 as [|item res Hitem Hres IH]; intro k; simpl.
  - now rewrite app_nil_r.
  - rewrite <- (IH (place k item)), <- (place_perm k item Hitem),
      <- app_assoc. reflexivity.
Qed.

Lemma place_all_perm (results : list (list json)) :
  Forall (Forall (fun item => placeable item = true)) results ->
  forall k, Permutation (entries k ++ concat results)
                        (entries (place_all k results)).
Proof.
  unfold place_all.
  induction 1 as [|res results Hres Hresults IH]; intro k; simpl.
  - now rewrite app_nil_r.
  - rewrite <- IH, <- (place_list_perm res Hres k), <- app_assoc.
    reflexivity.
Qed.

End AsyncFacts.

(* ================================================================== *)
(** * The properties *)
(* ================================================================== *)

Section Properties.
Import PyStr Clean LLMIntegration KnowledgeExtractor.
Local Open Scope string_scope.

(** Sanity checks of the definitions on small inputs. *)

Example clean_nested_commas :
  _clean_json_string "x {[1, 2, ] , }  y" = "{[1, 2] }".
Proof. vm_compute. reflexivity. Qed.

Example clean_one_pass : _clean_json_string "{,,}" = "{,}".
Proof. vm_compute. reflexivity. Qed.

Example loads_nested :
  Reader.loads (dq " {`a` : [1, -20, true, null, {`b`:`c\`d`}], `a`: 3 } ")
  = Some (JObj [("a", JNum 3)]).
Proof. vm_compute. reflexivity. Qed.

Example loads_rejects :
  Reader.loads "" = None /\ Reader.loads "{,}" = None
  /\ Reader.loads "{} x" = None.
Proof. vm_compute. auto. Qed.

Example rate_limit_exceeded_5 :
  rate_limit_exceeded 5
  = [("error", JStr "Rate limit exceeded after 5 retries.")].
Proof. vm_compute. reflexivity. Qed.

Example is_rate_limit_cases :
  is_rate_limit "Rate Limit reached for gpt-3.5-turbo" = true
  /\ is_rate_limit "Error code: 429" = true
  /\ is_rate_limit "code: rate_limit_exceeded" = true
  /\ is_rate_limit "Connection error." = false.
Proof. vm_compute. auto. Qed.

(** ** The retry loop *)

(** C2, as the code has it.  When every call of the oracle for the chunk
    raises an exception that is taken for a rate limit, [max_retries] is at
    most 1024 and [time.sleep] accepts the delays (it refuses a negative one
    and one beyond its range), [analyze_code_chunk] calls the oracle exactly
    [max_retries] times, sleeps [base_delay * 2^k] after the call number [k]
    (from 0), and then returns the dict of the error
    "Rate limit exceeded after [max_retries] retries.". *)
Theorem rate_limited_chunk_exhausts_retries :
  forall (World : Type)
         (llm_invoke : string -> World -> (exn + string) * World)
         (time_sleep : Q -> World -> option exn * World)
         (parser_invoke : string -> exn + dict)
         (chunk : string) (max_retries : Z) (base_delay : Q) (w : World),
    (0 <= max_retries <= 1024)%Z ->
    accepts_delays World time_sleep base_delay (Z.to_nat max_retries) ->
    (forall w0, exists e w1,
        llm_invoke (_build_prompt chunk) w0 = (inl e, w1)
        /\ is_rate_limit (exn_str e) = true) ->
    exists w' tr,
      analyze_code_chunk World llm_invoke time_sleep parser_invoke
                         chunk max_retries base_delay (w, [])
      = (inr (rate_limit_exceeded max_retries), (w', tr))
      /\ tr = flat_map (limited_round chunk base_delay)
                       (seq 0 (Z.to_nat max_retries))
      /\ Z.of_nat (attempts tr) = max_retries
      /\ delays tr
         = map (fun k => Qmult base_delay (inject_Z (2 ^ Z.of_nat k)))
               (seq 0 (Z.to_nat max_retries)).
Proof.
  intros World llm_invoke time_sleep parser_invoke chunk max_retries
         base_delay w Hrange Hacc Hlim.
  destruct (retry_loop_limited World llm_invoke time_sleep parser_invoke
              chunk max_retries base_delay Hlim (Z.to_nat max_retries)
              0%nat w []) as [w' Hw'].
  - unfold float_range. simpl. lia.
  - exact Hacc.
  - exists w', (flat_map (limited_round chunk base_delay)
                         (seq 0 (Z.to_nat max_retries))).
    split; [exact Hw'|]. split; [reflexivity|]. split.
    + rewrite attempts_limited, length_seq. lia.
    + apply delays_limited.
Qed.

Lemma rate_limited_chunk_exhausts_retries_witness :
  exists w' tr,
    Stub.analyze (Stub.raising (Exn "RateLimitError" "Error code: 429"))
                 "x = 1"
    = (inr (rate_limit_exceeded 5), (w', tr))
    /\ tr = flat_map (limited_round "x = 1" (5 # 1)) (seq 0 5)
    /\ Z.of_nat (attempts tr) = 5%Z
    /\ delays tr
       = map (fun k => Qmult (5 # 1) (inject_Z (2 ^ Z.of_nat k))) (seq 0 5).
Proof.
  apply (rate_limited_chunk_exhausts_retries
           unit (Stub.raising (Exn "RateLimitError" "Error code: 429"))
           Stub.no_sleep Reader.parse_object "x = 1" 5%Z (5 # 1) tt).
  - lia.
  - intros k w Hk. simpl in Hk.
    do 5 (destruct k as [|k]; [reflexivity|]). lia.
  - intro w0. exists (Exn "RateLimitError" "Error code: 429"), w0.
    split; reflexivity.
Defined.

(** C2 as stated fails outside these bounds.  With a negative
    [base_delay] the first sleep raises [ValueError], after one call; with
    1025 retries the product of the attempt 1024 raises [OverflowError]:
    in both runs the exception leaves [analyze_code_chunk] and the dict of
    the rate-limit error is not returned. *)
Lemma backoff_can_raise :
  analyze_code_chunk unit
                     (Stub.raising (Exn "RateLimitError" "Error code: 429"))
                     Stub.no_sleep Reader.parse_object "x = 1" 5%Z
                     (Qopp (1 # 1)) (tt, [])
  = (inl (Exn "ValueError" "sleep length must be non-negative"),
     (tt, [Invoked (_build_prompt "x = 1")]))
  /\ fst (analyze_code_chunk
            unit (Stub.raising (Exn "RateLimitError" "Error code: 429"))
            Stub.no_sleep Reader.parse_object "x = 1" 1025%Z
            (0 # 1) (tt, []))
     = inl (Exn "OverflowError" "int too large to convert to float").
Proof. split; vm_compute; reflexivity. Qed.

(** C3, as the code has it.  An exception that is not taken for a rate
    limit, raised by the call of the oracle or by the parser, is raised again
    by [analyze_code_chunk] at once, at the first attempt as at any later
    iteration of the loop: no sleep and no further call.  It is the caller
    that captures it: [extract] and [extract_async] turn it into an entry of
    [notes] for the chunk, "LLM error: <class>: <message>". *)
Theorem other_exception_is_reraised :
  forall (World : Type)
         (llm_invoke : string -> World -> (exn + string) * World)
         (time_sleep : Q -> World -> option exn * World)
         (parser_invoke : string -> exn + dict)
         (chunk : string) (max_retries : Z) (base_delay : Q)
         (w : World) (tr : list event) (e : exn) (st' : state World),
    (0 < max_retries)%Z ->
    attempt_once World llm_invoke parser_invoke chunk (w, tr) = (inl e, st') ->
    is_rate_limit (exn_str e) = false ->
    analyze_code_chunk World llm_invoke time_sleep parser_invoke
                       chunk max_retries base_delay (w, tr)
    = (inl e, st')
    /\ (forall todo attempt,
           retry_loop World llm_invoke time_sleep parser_invoke
                      (S todo) attempt chunk max_retries base_delay (w, tr)
           = (inl e, st'))
    /\ snd st' = (tr ++ [Invoked (_build_prompt chunk)])%list
    /\ (forall k c,
           merge k (c, inl e) = inr (add_note k (entry c "notes" (llm_error e))))
    /\ (forall c,
           process_chunk_with_limit (c, inl e)
           = inr [typed_entry "notes" c "notes" (llm_error e)]).
Proof.
  intros World llm_invoke time_sleep parser_invoke chunk max_retries
         base_delay w tr e st' Hpos Hatt Hrl.
  split; [|split; [|split; [|split]]].
  - unfold analyze_code_chunk.
    destruct (Z.to_nat max_retries) as [|todo] eqn:E; [lia|].
    now apply retry_loop_reraises.
  - intros todo attempt. now apply retry_loop_reraises.
  - exact (attempt_once_trace _ _ _ _ _ _ _ _ Hatt).
  - reflexivity.
  - reflexivity.
Qed.

Lemma other_exception_is_reraised_witness :
  Stub.analyze (Stub.raising (Exn "APIConnectionError" "Connection error."))
               "x = 1"
  = (inl (Exn "APIConnectionError" "Connection error."),
     (tt, [Invoked (_build_prompt "x = 1")])).
Proof.
  apply (other_exception_is_reraised
           unit (Stub.raising (Exn "APIConnectionError" "Connection error."))
           Stub.no_sleep Reader.parse_object "x = 1" 5%Z (5 # 1) tt []
           (Exn "APIConnectionError" "Connection error.")
           (tt, [Invoked (_build_prompt "x = 1")])).
  - lia.
  - reflexivity.
  - reflexivity.
Defined.

(** C3 as stated fails: with an oracle whose call raises a connection
    error, [analyze_code_chunk] returns nothing, it raises that error. *)
Lemma oracle_error_propagates :
  fst (Stub.analyze
         (Stub.raising (Exn "APIConnectionError" "Connection error."))
         "x = 1")
  = inl (Exn "APIConnectionError" "Connection error.").
Proof. vm_compute. reflexivity. Qed.

(** C4, as the code has it.  When the normalised text of the response does
    not parse and the message of the parser's exception is not taken for a
    rate limit, [analyze_code_chunk] raises that exception after this one
    call, without sleeping; the caller records it in [notes]. *)
Theorem parse_failure_is_reraised :
  forall (World : Type)
         (llm_invoke : string -> World -> (exn + string) * World)
         (time_sleep : Q -> World -> option exn * World)
         (parser_invoke : string -> exn + dict)
         (chunk : string) (max_retries : Z) (base_delay : Q)
         (w w' : World) (tr : list event) (raw : string) (e : exn),
    (0 < max_retries)%Z ->
    llm_invoke (_build_prompt chunk) w = (inr raw, w') ->
    parser_invoke (_clean_json_string raw) = inl e ->
    is_rate_limit (exn_str e) = false ->
    analyze_code_chunk World llm_invoke time_sleep parser_invoke
                       chunk max_retries base_delay (w, tr)
    = (inl e, (w', (tr ++ [Invoked (_build_prompt chunk)])%list))
    /\ (forall k c,
           merge k (c, inl e) = inr (add_note k (entry c "notes" (llm_error e))))
    /\ (forall c,
           process_chunk_with_limit (c, inl e)
           = inr [typed_entry "notes" c "notes" (llm_error e)]).
Proof.
  intros World llm_invoke time_sleep parser_invoke chunk max_retries
         base_delay w w' tr raw e Hpos Hinv Hparse Hrl.
  split; [|split; reflexivity].
  unfold analyze_code_chunk.
  destruct (Z.to_nat max_retries) as [|todo] eqn:E; [lia|].
  apply retry_loop_reraises; [|exact Hrl].
  unfold attempt_once. now rewrite Hinv, Hparse.
Qed.

Lemma parse_failure_is_reraised_witness :
  Stub.analyze (Stub.answering "I cannot analyze this code.") "x = 1"
  = (inl (Exn "OutputParserException" "Invalid json output: "),
     (tt, [Invoked (_build_prompt "x = 1")])).
Proof.
  apply (parse_failure_is_reraised
           unit (Stub.answering "I cannot analyze this code.")
           Stub.no_sleep Reader.parse_object "x = 1" 5%Z (5 # 1) tt tt []
           "I cannot analyze this code."
           (Exn "OutputParserException" "Invalid json output: ")).
  - lia.
  - reflexivity.
  - reflexivity.
  - reflexivity.
Defined.

(** C4 as stated fails twice.  A response that does not parse makes
    [analyze_code_chunk] raise, not return; and when the text of the response
    holds "429", the message of the parser's exception holds it too, is taken
    for a rate limit, and the call is made five times with the five sleeps
    before the rate-limit error is returned. *)
Lemma parse_failure_not_returned :
  fst (Stub.analyze (Stub.answering "I cannot analyze this code.") "x = 1")
  = inl (Exn "OutputParserException" "Invalid json output: ")
  /\ Stub.analyze (Stub.answering (dq "{`retry_after`: 429ms}")) "x = 1"
     = (inr [("error", JStr "Rate limit exceeded after 5 retries.")],
        (tt, flat_map (limited_round "x = 1" (5 # 1)) (seq 0 5))).
Proof. split; vm_compute; reflexivity. Qed.

(** ** The normalisation *)

(** C6.  [_clean_json_string] removes what comes before the first opening
    brace and after the last closing brace, and its scan for commas replaces
    a comma, the white space after it and the closing brace or bracket that
    follows by that brace or bracket alone.  On the example response the
    result is the text of the object, which parses to the object with
    overview "x", no method, complexity "low" and empty notes. *)
Theorem clean_json_string_spec :
  (forall pre body post : string,
      has_char "{" pre = false -> has_char "}" post = false ->
      _clean_json_string (pre ++ "{" ++ body ++ "}" ++ post)
      = sub_commas ("{" ++ body ++ "}"))
  /\ (forall (a ws : string) (b : ascii) (rest : string),
         lstrip ws = "" -> closer b = true ->
         sub_commas (a ++ "," ++ ws ++ String b rest)
         = sub_commas a ++ String b (sub_commas rest))
  /\ (forall s : string, has_char "," s = false -> sub_commas s = s)
  /\ _clean_json_string Stub.noisy
     = dq "{`overview`:`x`,`methods`:[],`complexity`:`low`,`notes`:``}"
  /\ Reader.parse_object (_clean_json_string Stub.noisy)
     = inr [("overview", JStr "x"); ("methods", JArr []);
            ("complexity", JStr "low"); ("notes", JStr "")].
Proof.
  split; [exact clean_braced|].
  split.
  { intros a ws b rest Hws Hb.
    change (a ++ "," ++ ws ++ String b rest)
      with (a ++ String "," (ws ++ String b rest)).
    rewrite sub_commas_app_comma, (sub_commas_match _ _ _ Hws Hb).
    reflexivity. }
  split; [exact sub_commas_no_comma|].
  split; vm_compute; reflexivity.
Qed.

Lemma clean_json_string_spec_witness :
  _clean_json_string ("Here you go: " ++ "{" ++ "[1, 2, ], " ++ "}" ++ " Bye.")
  = sub_commas ("{" ++ "[1, 2, ], " ++ "}")
  /\ sub_commas ("{[1, 2" ++ "," ++ " " ++ String "]" "}")
     = sub_commas "{[1, 2" ++ String "]" (sub_commas "}")
  /\ sub_commas "{[1 2]}" = "{[1 2]}".
Proof.
  destruct clean_json_string_spec as (Hbraces & Hcomma & Hnone & _).
  split; [|split].
  - apply (Hbraces "Here you go: " "[1, 2, ], " " Bye."); reflexivity.
  - apply (Hcomma "{[1, 2" " " "]"%char "}"); reflexivity.
  - apply (Hnone "{[1 2]}"); reflexivity.
Defined.

(** C10.  A text without an opening brace, or without a closing brace, is
    normalised to the empty text; the reader rejects the empty text, and
    with any parser that does so an attempt whose response is such a text
    raises the parser's exception: it never returns a parsed result. *)
Theorem unbraced_response_never_parses :
  forall s : string,
    has_char "{" s = false \/ has_char "}" s = false ->
    _clean_json_string s = ""
    /\ Reader.parse_object (_clean_json_string s)
       = inl (Exn "OutputParserException" "Invalid json output: ")
    /\ (forall (World : Type)
               (llm_invoke : string -> World -> (exn + string) * World)
               (parser_invoke : string -> exn + dict)
               (chunk : string) (w w' : World) (tr : list event) (e : exn),
           llm_invoke (_build_prompt chunk) w = (inr s, w') ->
           parser_invoke "" = inl e ->
           attempt_once World llm_invoke parser_invoke chunk (w, tr)
           = (inl e, (w', (tr ++ [Invoked (_build_prompt chunk)])%list))).
Proof.
  intros s Hs. pose proof (clean_unbraced s Hs) as Hclean.
  split; [exact Hclean|]. split.
  - rewrite Hclean. reflexivity.
  - intros World llm_invoke parser_invoke chunk w w' tr e Hinv Hparse.
    unfold attempt_once. now rewrite Hinv, Hclean, Hparse.
Qed.

Lemma unbraced_response_never_parses_witness :
  _clean_json_string "I cannot analyze this code }" = ""
  /\ Reader.parse_object (_clean_json_string "I cannot analyze this code }")
     = inl (Exn "OutputParserException" "Invalid json output: ")
  /\ attempt_once unit (Stub.answering "I cannot analyze this code }")
                  Reader.parse_object "x = 1" (tt, [])
     = (inl (Exn "OutputParserException" "Invalid json output: "),
        (tt, [Invoked (_build_prompt "x = 1")])).
Proof.
  destruct (unbraced_response_never_parses "I cannot analyze this code }")
    as (Hclean & Hreader & Hattempt).
  - left. reflexivity.
  - split; [exact Hclean|]. split; [exact Hreader|].
    apply (Hattempt unit (Stub.answering "I cannot analyze this code }")
                    Reader.parse_object "x = 1" tt tt []
                    (Exn "OutputParserException" "Invalid json output: "));
      reflexivity.
Defined.

(** ** The project summary and the empty input *)

(** C7, as the code has it.  Without a [README.md] the project summary is
    the empty object; when reading the file, the call of the oracle or the
    parsing raises, it is the object with the one key [readme_error] and
    the text of the exception, whatever that text; otherwise it is the
    parsed response.  The step is a function with a value in every case: it
    raises nothing. *)
Theorem project_summary_spec :
  forall (World : Type)
         (llm_invoke : string -> World -> (exn + string) * World)
         (parser_parse : string -> exn + json) (w : World),
    fst (project_summary World llm_invoke parser_parse None w) = JObj []
    /\ (forall e,
           fst (project_summary World llm_invoke parser_parse (Some (inl e)) w)
           = JObj [("readme_error", JStr (exn_str e))])
    /\ (forall readme_content e w',
           llm_invoke (readme_prompt readme_content) w = (inl e, w') ->
           fst (project_summary World llm_invoke parser_parse
                                (Some (inr readme_content)) w)
           = JObj [("readme_error", JStr (exn_str e))])
    /\ (forall readme_content content e w',
           llm_invoke (readme_prompt readme_content) w = (inr content, w') ->
           parser_parse content = inl e ->
           fst (project_summary World llm_invoke parser_parse
                                (Some (inr readme_content)) w)
           = JObj [("readme_error", JStr (exn_str e))])
    /\ (forall readme_content content info w',
           llm_invoke (readme_prompt readme_content) w = (inr content, w') ->
           parser_parse content = inr info ->
           fst (project_summary World llm_invoke parser_parse
                                (Some (inr readme_content)) w)
           = info).
Proof.
  intros World llm_invoke parser_parse w.
  split; [reflexivity|]. split; [reflexivity|].
  split; [|split].
  - intros readme_content e w' Hinv. simpl. now rewrite Hinv.
  - intros readme_content content e w' Hinv Hparse. simpl.
    now rewrite Hinv, Hparse.
  - intros readme_content content info w' Hinv Hparse. simpl.
    now rewrite Hinv, Hparse.
Qed.

Lemma project_summary_spec_witness :
  fst (project_summary unit (Stub.raising (Exn "APIConnectionError" "Connection error."))
                       Stub.parse_json (Some (inr "# Project")) tt)
  = JObj [("readme_error", JStr "Connection error.")]
  /\ fst (project_summary unit (Stub.answering "no json") Stub.parse_json
                          (Some (inr "# Project")) tt)
     = JObj [("readme_error", JStr "Invalid json output: no json")]
  /\ fst (project_summary unit (Stub.answering (dq "{`usage`: `run it`}"))
                          Stub.parse_json (Some (inr "# Project")) tt)
     = JObj [("usage", JStr "run it")].
Proof.
  split; [|split].
  - destruct (project_summary_spec
                unit (Stub.raising (Exn "APIConnectionError" "Connection error."))
                Stub.parse_json tt) as (_ & _ & H & _).
    apply (H "# Project" (Exn "APIConnectionError" "Connection error.") tt).
    reflexivity.
  - destruct (project_summary_spec
                unit (Stub.answering "no json") Stub.parse_json tt)
      as (_ & _ & _ & H & _).
    apply (H "# Project" "no json"
             (Exn "OutputParserException" "Invalid json output: no json") tt);
      reflexivity.
  - destruct (project_summary_spec
                unit (Stub.answering (dq "{`usage`: `run it`}"))
                Stub.parse_json tt) as (_ & _ & _ & _ & H).
    apply (H "# Project" (dq "{`usage`: `run it`}")
             (JObj [("usage", JStr "run it")]) tt);
      reflexivity.
Defined.

(** C7 as stated fails: without a document the summary is the empty
    object, not null; and an exception whose text is empty gives an empty
    message under [readme_error]. *)
Lemma project_summary_not_null :
  fst (project_summary unit (Stub.answering "") Stub.parse_json None tt)
  = JObj []
  /\ JObj [] <> JNull
  /\ fst (project_summary unit (Stub.raising (Exn "TimeoutError" ""))
                          Stub.parse_json (Some (inr "# Project")) tt)
     = JObj [("readme_error", JStr "")].
Proof. split; [reflexivity|]. split; [discriminate | reflexivity]. Qed.

(** C8, as the code has it.  On no chunk [main_async] returns before the
    extraction: it raises nothing and produces no aggregate.  Called on no
    chunk, [extract] and [extract_async] raise what the building of the
    vector store raises, as the library does on no document, before any
    aggregate exists. *)
Theorem empty_input_spec :
  forall (World : Type)
         (llm_invoke : string -> World -> (exn + string) * World)
         (parser_parse : string -> exn + json)
         (faiss_from_documents : list chunk_info -> option exn)
         (readme : option (exn + string)) (w : World) (order : list nat),
    main_async World llm_invoke parser_parse faiss_from_documents
               readme w [] order = inr None
    /\ (forall e,
           faiss_from_documents [] = Some e ->
           extract World llm_invoke parser_parse faiss_from_documents
                   readme w [] order = inl e
           /\ extract_async World llm_invoke parser_parse
                            faiss_from_documents readme w [] order = inl e).
Proof.
  intros World llm_invoke parser_parse faiss_from_documents readme w order.
  split; [reflexivity|].
  intros e Hfaiss.
  unfold extract, extract_async. simpl map. rewrite Hfaiss.
  split; reflexivity.
Qed.

Lemma empty_input_spec_witness :
  extract unit (Stub.answering "") Stub.parse_json Stub.faiss_ok
          None tt [] []
  = inl (Exn "IndexError" "list index out of range")
  /\ extract_async unit (Stub.answering "") Stub.parse_json Stub.faiss_ok
                   None tt [] []
     = inl (Exn "IndexError" "list index out of range").
Proof.
  destruct (empty_input_spec unit (Stub.answering "") Stub.parse_json
                             Stub.faiss_ok None tt [])
    as (_ & H).
  apply (H (Exn "IndexError" "list index out of range")).
  reflexivity.
Defined.

(** C8 as stated fails: on no chunk [main_async] produces no aggregate at
    all, and [extract_async], called on no chunk, raises the [IndexError] of
    the vector store instead of returning an aggregate. *)
Lemma empty_input_not_null :
  main_async unit (Stub.answering "") Stub.parse_json Stub.faiss_ok
             None tt [] []
  = inr None
  /\ extract_async unit (Stub.answering "") Stub.parse_json Stub.faiss_ok
                   None tt [] []
     = inl (Exn "IndexError" "list index out of range").
Proof. split; reflexivity. Qed.

(** ** The aggregation *)

Lemma tasks_ok (futures : list future) :
  forallb outcome_ok futures = true ->
  let outs := flat_map (fun t => match t with inl _ => [] | inr v => [v] end)
                       (map process_chunk_with_limit futures) in
  existsb raises (map process_chunk_with_limit futures) = false
  /\ Forall2 (fun fut out => process_chunk_with_limit fut = inr out
                             /\ out <> []) futures outs
  /\ Forall (Forall (fun item => placeable item = true)) outs.
Proof.
  induction futures as [|fut futures IH]; simpl; intro H.
  - repeat split; constructor.
  - apply andb_true_iff in H. destruct H as [Hfut Hrest].
    destruct (process_ok fut Hfut) as (out & Hout & Hne & Hplace).
    destruct (IH Hrest) as (Hno & Hall & Hitems).
    rewrite Hout. simpl. split; [exact Hno|].
    split; constructor; auto.
Qed.

(** C1, as the code has it.  Every chunk contributes at least one entry to
    the aggregate, and the entry may be a method: [extract_async] turns every
    chunk into a list of items that is not empty (the note "LLM error: ..."
    when the analysis raised, a fallback note when the result gives nothing
    else) and appends each of them to [overview], [methods], [complexity] or
    [notes], provided the methods of a result are a list of objects without
    a key ['type'].  In [extract], an analysis that raised adds its note, and
    a result that has one of the keys [overview], [complexity], [notes], or
    none of the four keys, adds an entry to these three sequences. *)
Theorem every_chunk_contributes :
  forall (World : Type)
         (llm_invoke : string -> World -> (exn + string) * World)
         (parser_parse : string -> exn + json)
         (faiss_from_documents : list chunk_info -> option exn)
         (readme : option (exn + string)) (w : World)
         (futures : list future) (order : list nat),
    Permutation order (seq 0 (List.length futures)) ->
    faiss_from_documents (map fst futures) = None ->
    forallb outcome_ok futures = true ->
    (exists k outs,
        extract_async World llm_invoke parser_parse faiss_from_documents
                      readme w futures order = inr k
        /\ Forall2 (fun fut out => process_chunk_with_limit fut = inr out
                                   /\ out <> []) futures outs
        /\ Permutation (concat outs) (entries k))
    /\ (forall k c e,
           merge k (c, inl e) = inr (add_note k (entry c "notes" (llm_error e))))
    /\ (forall k c result k',
           merge k (c, inr result) = inr k' ->
           Dict.mem "overview" result || Dict.mem "complexity" result
           || Dict.mem "notes" result || negb (Dict.mem "methods" result)
           = true ->
           (List.length (overview k ++ complexity k ++ notes k)
            < List.length (overview k' ++ complexity k' ++ notes k'))%nat).
Proof.
  intros World llm_invoke parser_parse faiss_from_documents readme w
         futures order Hperm Hfaiss Hok.
  split; [|split].
  - unfold extract_async. rewrite Hfaiss.
    destruct (project_summary World llm_invoke parser_parse readme w)
      as [info w'].
    destruct (tasks_ok futures Hok) as (Hno & Hall & Hitems).
    pose proof (gather_spec (map process_chunk_with_limit futures) order)
      as Hg.
    rewrite length_map, Hno in Hg. rewrite (Hg Hperm).
    eexists. eexists. split; [reflexivity|]. split; [exact Hall|].
    exact (place_all_perm _ Hitems (initial info)).
  - reflexivity.
  - intros k c result k' Hmerge Hkey.
    rewrite merge_spec in Hmerge. unfold methods_of in Hmerge. simpl in Hmerge.
    destruct (match Dict.get "methods" result with
              | Some ms => py_iter ms
              | None => inr []
              end) as [e|ms]; [discriminate|].
    injection Hmerge as <-. simpl.
    unfold overview_of, complexity_of, notes_of, has_any_key, keyed. simpl.
    unfold Dict.mem in *.
    rewrite !length_app.
    destruct (Dict.get "overview" result);
      destruct (Dict.get "methods" result);
      destruct (Dict.get "complexity" result);
      destruct (Dict.get "notes" result);
      simpl in *; try discriminate; lia.
Qed.

Lemma every_chunk_contributes_witness :
  exists k outs,
    extract_async unit (Stub.answering Stub.methods_only) Stub.parse_json
                  Stub.faiss_ok None tt
                  (futures_of (Stub.outcome_for Stub.methods_only)
                              [Stub.chunk_a; Stub.chunk_b])
                  [1; 0]%nat
    = inr k
    /\ Forall2 (fun fut out => process_chunk_with_limit fut = inr out
                               /\ out <> [])
               (futures_of (Stub.outcome_for Stub.methods_only)
                           [Stub.chunk_a; Stub.chunk_b]) outs
    /\ Permutation (concat outs) (entries k).
Proof.
  apply (every_chunk_contributes
           unit (Stub.answering Stub.methods_only) Stub.parse_json
           Stub.faiss_ok None tt
           (futures_of (Stub.outcome_for Stub.methods_only)
                       [Stub.chunk_a; Stub.chunk_b])
           [1; 0]%nat).
  - simpl. apply perm_swap.
  - reflexivity.
  - vm_compute. reflexivity.
Defined.

(** C1 as stated fails: a chunk whose result holds methods and nothing
    else has no entry in [overview], [complexity] or [notes]; its
    contribution is in [methods]. *)
Lemma methods_only_chunk_outside_count :
  exists k,
    extract_async unit (Stub.answering Stub.methods_only) Stub.parse_json
                  Stub.faiss_ok None tt
                  (futures_of (Stub.outcome_for Stub.methods_only)
                              [Stub.chunk_a])
                  [0%nat]
    = inr k
    /\ methods k = [Stub.method_f_item]
    /\ (overview k ++ complexity k ++ notes k)%list = []
    /\ List.length (overview k ++ complexity k ++ notes k)
       <> List.length [Stub.chunk_a].
Proof.
  eexists. split; [vm_compute; reflexivity|].
  split; [reflexivity|]. split; [reflexivity | simpl; lia].
Qed.

(** In [extract] a result whose only key is [methods], with no method that
    is new, adds nothing at all, where [extract_async] adds the fallback
    note. *)
Example empty_methods_sync_and_async :
  extract unit (Stub.answering (dq "{`methods`: []}")) Stub.parse_json
          Stub.faiss_ok None tt
          (futures_of (Stub.outcome_for (dq "{`methods`: []}")) [Stub.chunk_a])
          [0%nat]
  = inr (Knowledge (JObj []) [] [] [] [])
  /\ extract_async unit (Stub.answering (dq "{`methods`: []}")) Stub.parse_json
                   Stub.faiss_ok None tt
                   (futures_of (Stub.outcome_for (dq "{`methods`: []}"))
                               [Stub.chunk_a])
                   [0%nat]
     = inr (Knowledge (JObj []) [] [] []
                      [typed_entry "notes" Stub.chunk_a "notes"
                                   (JStr "Unknown LLM response")]).
Proof. split; vm_compute; reflexivity. Qed.

(** The methods of [extract] hold no entry equal, for [==], to an earlier
    one. *)
Lemma extract_methods_distinct :
  forall (World : Type)
         (llm_invoke : string -> World -> (exn + string) * World)
         (parser_parse : string -> exn + json)
         (faiss_from_documents : list chunk_info -> option exn)
         (readme : option (exn + string)) (w : World)
         (futures : list future) (order : list nat) (k : knowledge),
    extract World llm_invoke parser_parse faiss_from_documents
            readme w futures order = inr k ->
    distinct (methods k).
Proof.
  intros World llm_invoke parser_parse faiss_from_documents readme w
         futures order k.
  unfold extract.
  destruct (faiss_from_documents (map fst futures)); [discriminate|].
  destruct (project_summary World llm_invoke parser_parse readme w)
    as [info w'].
  destruct (existsb (fun fut => raises (methods_of fut))
                    (as_completed order futures)) eqn:E.
  - destruct (merge_all_raises _ (initial info) E) as [e He].
    rewrite He. discriminate.
  - rewrite (merge_all_returns _ (initial info) E).
    intro H. injection H as <-. simpl.
    apply dedup_onto_distinct. constructor.
Qed.

(** C5 fails in [extract_async].  Two chunks whose results hold the same
    method: [extract_async] keeps the method twice, where [extract] keeps it
    once. *)
Theorem extract_async_keeps_duplicates :
  exists k k',
    extract_async unit (Stub.answering Stub.methods_only) Stub.parse_json
                  Stub.faiss_ok None tt
                  (futures_of (Stub.outcome_for Stub.methods_only)
                              [Stub.chunk_a; Stub.chunk_b])
                  [0; 1]%nat
    = inr k
    /\ methods k = [Stub.method_f_item; Stub.method_f_item]
    /\ ~ NoDup (methods k)
    /\ extract unit (Stub.answering Stub.methods_only) Stub.parse_json
               Stub.faiss_ok None tt
               (futures_of (Stub.outcome_for Stub.methods_only)
                           [Stub.chunk_a; Stub.chunk_b])
               [0; 1]%nat
       = inr k'
    /\ methods k' = [Stub.method_f].
Proof.
  eexists. eexists.
  split; [vm_compute; reflexivity|].
  split; [reflexivity|].
  split.
  - simpl. intro H. inversion H as [|x l Hnotin _]; subst.
    apply Hnotin. now left.
  - split; [vm_compute; reflexivity | reflexivity].
Qed.

Lemma existsb_perm {A : Type} (f : A -> bool) (l l' : list A) :
  Permutation l l' -> existsb f l = existsb f l'.
Proof.
  induction 1 as [|x l l' _ IH|x y l|l l' l'' _ IH1 _ IH2]; simpl.
  - reflexivity.
  - now rewrite IH.
  - destruct (f x), (f y); reflexivity.
  - now rewrite IH1.
Qed.

(** C9, as the code has it.  With an analysis that is a function of the
    chunk, the order in which the analyses complete is the one thing that
    the level of concurrency changes.  For any two orders,
    [extract_async] raises in both runs or returns the same aggregate in
    both; [extract] raises in both runs or returns two aggregates with the
    same project summary, the same entries of [overview], [complexity] and
    [notes] up to their order, and the same methods up to [==]. *)
Theorem content_independent_of_completion_order :
  forall (World : Type)
         (llm_invoke : string -> World -> (exn + string) * World)
         (parser_parse : string -> exn + json)
         (faiss_from_documents : list chunk_info -> option exn)
         (readme : option (exn + string)) (w : World)
         (analyze : string -> exn + dict)
         (code_chunks : list chunk_info) (order1 order2 : list nat),
    Permutation order1 (seq 0 (List.length code_chunks)) ->
    Permutation order2 (seq 0 (List.length code_chunks)) ->
    match extract_async World llm_invoke parser_parse faiss_from_documents
                        readme w (futures_of analyze code_chunks) order1,
          extract_async World llm_invoke parser_parse faiss_from_documents
                        readme w (futures_of analyze code_chunks) order2
    with
    | inr k1, inr k2 => k1 = k2
    | inl _, inl _ => True
    | _, _ => False
    end
    /\ match extract World llm_invoke parser_parse faiss_from_documents
                     readme w (futures_of analyze code_chunks) order1,
             extract World llm_invoke parser_parse faiss_from_documents
                     readme w (futures_of analyze code_chunks) order2
       with
       | inr k1, inr k2 => same_content k1 k2
       | inl _, inl _ => True
       | _, _ => False
       end.
Proof.
  intros World llm_invoke parser_parse faiss_from_documents readme w
         analyze code_chunks order1 order2 H1 H2.
  set (futures := futures_of analyze code_chunks).
  assert (Hlen : List.length futures = List.length code_chunks)
    by apply length_map.
  rewrite <- Hlen in H1, H2.
  unfold extract_async, extract.
  destruct (faiss_from_documents (map fst futures)); [split; exact I|].
  destruct (project_summary World llm_invoke parser_parse readme w)
    as [info w'].
  split.
  - pose proof (gather_spec (map process_chunk_with_limit futures) order1)
      as G1.
    pose proof (gather_spec (map process_chunk_with_limit futures) order2)
      as G2.
    rewrite length_map in G1, G2. specialize (G1 H1). specialize (G2 H2).
    destruct (existsb raises (map process_chunk_with_limit futures)).
    + destruct G1 as [e1 ->]. destruct G2 as [e2 ->]. exact I.
    + rewrite G1, G2. reflexivity.
  - pose proof (as_completed_perm futures order1 H1) as P1.
    pose proof (as_completed_perm futures order2 H2) as P2.
    assert (P : Permutation (as_completed order1 futures)
                            (as_completed order2 futures))
      by (rewrite P1, P2; reflexivity).
    pose proof (existsb_perm (fun fut => raises (methods_of fut)) _ _ P) as E.
    destruct (existsb (fun fut => raises (methods_of fut))
                      (as_completed order2 futures)) eqn:E2.
    + destruct (merge_all_raises _ (initial info) E) as [e1 ->].
      destruct (merge_all_raises _ (initial info) E2) as [e2 ->].
      exact I.
    + rewrite (merge_all_returns _ (initial info) E),
        (merge_all_returns _ (initial info) E2).
      unfold same_content. simpl.
      split; [reflexivity|].
      split; [now apply Permutation_flat_map|].
      split; [now apply dedup_onto_covered, Permutation_flat_map|].
      split; [now apply dedup_onto_covered, Permutation_flat_map,
                Permutation_sym|].
      split; now apply Permutation_flat_map.
Qed.

Lemma content_independent_of_completion_order_witness :
  match extract_async unit (Stub.answering Stub.noisy) Stub.parse_json
                      Stub.faiss_ok None tt
                      (futures_of (Stub.outcome_for Stub.noisy)
                                  [Stub.chunk_a; Stub.chunk_b])
                      [1; 0]%nat,
        extract_async unit (Stub.answering Stub.noisy) Stub.parse_json
                      Stub.faiss_ok None tt
                      (futures_of (Stub.outcome_for Stub.noisy)
                                  [Stub.chunk_a; Stub.chunk_b])
                      [0; 1]%nat
  with
  | inr k1, inr k2 => k1 = k2
  | inl _, inl _ => True
  | _, _ => False
  end
  /\ match extract unit (Stub.answering Stub.noisy) Stub.parse_json
                   Stub.faiss_ok None tt
                   (futures_of (Stub.outcome_for Stub.noisy)
                               [Stub.chunk_a; Stub.chunk_b])
                   [1; 0]%nat,
           extract unit (Stub.answering Stub.noisy) Stub.parse_json
                   Stub.faiss_ok None tt
                   (futures_of (Stub.outcome_for Stub.noisy)
                               [Stub.chunk_a; Stub.chunk_b])
                   [0; 1]%nat
     with
     | inr k1, inr k2 => same_content k1 k2
     | inl _, inl _ => True
     | _, _ => False
     end.
Proof.
  apply (content_independent_of_completion_order
           unit (Stub.answering Stub.noisy) Stub.parse_json Stub.faiss_ok
           None tt (Stub.outcome_for Stub.noisy)
           [Stub.chunk_a; Stub.chunk_b] [1; 0]%nat [0; 1]%nat).
  - simpl. apply perm_swap.
  - simpl. apply Permutation_refl.
Defined.

(** C9 as stated fails for [extract]: two chunks give the same method but
    for a flag, the number 1 in one and the boolean true in the other; the
    two are equal for [==], so the method that completes first is kept and
    the other dropped, and the two completion orders return aggregates with
    different methods. *)
Lemma extract_methods_depend_on_order :
  extract unit Stub.answering_by_prompt Stub.parse_json Stub.faiss_ok None tt
          (futures_of Stub.outcome_by_prompt [Stub.chunk_c; Stub.chunk_d])
          [0; 1]%nat
  = inr (Knowledge (JObj []) [] [JObj [("static", JNum 1)]] [] [])
  /\ extract unit Stub.answering_by_prompt Stub.parse_json Stub.faiss_ok
             None tt
             (futures_of Stub.outcome_by_prompt [Stub.chunk_c; Stub.chunk_d])
             [1; 0]%nat
     = inr (Knowledge (JObj []) [] [JObj [("static", JBool true)]] [] [])
  /\ Knowledge (JObj []) [] [JObj [("static", JNum 1)]] [] []
     <> Knowledge (JObj []) [] [JObj [("static", JBool true)]] [] [].
Proof.
  split; [vm_compute; reflexivity|].
  split; [vm_compute; reflexivity | discriminate].
Qed.

End Properties.

(* ================================================================== *)
(** * Further facts on strings *)
(* ================================================================== *)

Section SubstringFacts.
Import PyStr.
Local Open Scope string_scope.

Lemma prefix_app (p r : string) : prefix p (p ++ r) = true.
Proof.
  induction p as [|c p IH]; simpl; [now destruct r|].
  destruct (ascii_dec c c); [exact IH | congruence].
Qed.

Lemma prefix_split (p : string) :
  forall s, prefix p s = true -> exists r, s = p ++ r.
Proof.
  induction p as [|c p IH]; intros s H.
  - exists s. reflexivity.
  - destruct s as [|d s]; simpl in H; [discriminate|].
    destruct (ascii_dec c d) as [->|]; [|discriminate].
    destruct (IH s H) as [r ->]. exists r. reflexivity.
Qed.

Lemma contains_cons (sub : string) (c : ascii) (s : string) :
  contains sub (String c s)
  = if prefix sub (String c s) then true else contains sub s.
Proof. reflexivity. Qed.

Lemma contains_split (sub s : string) :
  contains sub s = true -> exists a b, s = a ++ sub ++ b.
Proof.
  induction s as [|c s IH].
  - destruct sub as [|d sub]; [|discriminate]. intros _.
    exists "", "". reflexivity.
  - rewrite contains_cons.
    destruct (prefix sub (String c s)) eqn:E.
    + intros _. destruct (prefix_split _ _ E) as [r Hr].
      exists "", r. exact Hr.
    + intro H. destruct (IH H) as (a & b & ->).
      exists (String c a), b. reflexivity.
Qed.

Lemma contains_prefix (sub s : string) :
  prefix sub s = true -> contains sub s = true.
Proof.
  destruct s as [|c s]; [destruct sub; [reflexivity | discriminate]|].
  intro H. now rewrite contains_cons, H.
Qed.

Lemma contains_app (sub a b : string) : contains sub (a ++ sub ++ b) = true.
Proof.
  induction a as [|c a IH].
  - apply contains_prefix. exact (prefix_app sub b).
  - change (String c a ++ sub ++ b) with (String c (a ++ sub ++ b)).
    rewrite contains_cons, IH. now destruct (prefix sub _).
Qed.

Lemma contains_context (sub m a b : string) :
  contains sub m = true -> contains sub (a ++ m ++ b) = true.
Proof.
  intro H. destruct (contains_split _ _ H) as (x & y & ->).
  replace (a ++ (x ++ sub ++ y) ++ b) with ((a ++ x) ++ sub ++ (y ++ b))
    by now rewrite !sapp_assoc.
  apply contains_app.
Qed.

Lemma lower_app (a b : string) : lower (a ++ b) = lower a ++ lower b.
Proof. induction a as [|c a IH]; simpl; [reflexivity | now rewrite IH]. Qed.

Lemma lower_char_idem (c : ascii) : lower_char (lower_char c) = lower_char c.
Proof.
  destruct c as [[|] [|] [|] [|] [|] [|] [|] [|]]; vm_compute; reflexivity.
Qed.

Lemma lower_idem (s : string) : lower (lower s) = lower s.
Proof.
  induction s as [|c s IH]; simpl; [reflexivity|].
  now rewrite lower_char_idem, IH.
Qed.

Lemma lower_rev (s : string) : lower (rev s) = rev (lower s).
Proof.
  induction s as [|c s IH]; [reflexivity|].
  simpl lower. now rewrite !rev_cons, lower_app, IH.
Qed.

Lemma slength_rev (s : string) : String.length (rev s) = String.length s.
Proof.
  induction s as [|c s IH]; [reflexivity|].
  rewrite rev_cons, slength_app, IH. simpl. lia.
Qed.

Lemma has_char_first (c : ascii) (s : string) :
  has_char c s = true ->
  exists pre rest, s = pre ++ String c rest /\ has_char c pre = false.
Proof.
  induction s as [|d s IH]; simpl; [discriminate|].
  destruct (Ascii.eqb d c) eqn:E; simpl.
  - intros _. apply Ascii.eqb_eq in E. subst d.
    exists "", s. split; reflexivity.
  - intro H. destruct (IH H) as (pre & rest & -> & Hpre).
    exists (String d pre), rest. split; [reflexivity|].
    simpl. now rewrite E.
Qed.

Lemma has_char_last (c : ascii) (s : string) :
  has_char c s = true ->
  exists x post, s = x ++ String c post /\ has_char c post = false.
Proof.
  intro H. rewrite <- has_char_rev in H.
  destruct (has_char_first _ _ H) as (pre & rest & Hs & Hpre).
  exists (rev rest), (rev pre). split.
  - rewrite <- (rev_involutive s), Hs, rev_app, rev_cons, sapp_assoc.
    reflexivity.
  - now rewrite has_char_rev.
Qed.

End SubstringFacts.

(* ================================================================== *)
(** * Further properties of the oracle client *)
(* ================================================================== *)

Section ClientProperties.
Import PyStr Clean LLMIntegration.
Local Open Scope string_scope.

Lemma is_rate_limit_context (m a b : string) :
  is_rate_limit m = true -> is_rate_limit (a ++ m ++ b) = true.
Proof.
  unfold is_rate_limit. intro H.
  apply orb_true_iff in H. destruct H as [H|H];
    [apply orb_true_iff in H; destruct H as [H|H]|].
  - rewrite !lower_app, (contains_context _ _ _ _ H). reflexivity.
  - rewrite (contains_context _ _ a b H). now rewrite orb_true_r.
  - rewrite (contains_context _ _ a b H). now rewrite orb_true_r.
Qed.

(** The test for a rate limit looks for its three markers anywhere in the
    message: a message that holds a message taken for a rate limit is taken
    for one too, whatever stands before and after. *)
Theorem rate_limit_marker_in_context :
  forall m a b : string,
    is_rate_limit m = true -> is_rate_limit (a ++ m ++ b) = true.
Proof. exact is_rate_limit_context. Qed.

Lemma rate_limit_marker_in_context_witness :
  is_rate_limit ("Invalid json output: " ++ "{status: 429}" ++ " (line 1)")
  = true.
Proof.
  apply (rate_limit_marker_in_context
           "{status: 429}" "Invalid json output: " " (line 1)").
  reflexivity.
Defined.

(** A response that does not parse is retried like a rate limit when the
    message of the parser quotes the text and the text holds a marker: with
    an oracle that always answers this response, at most 1024 retries and
    delays that [time.sleep] accepts, the analysis calls the oracle
    [max_retries] times, sleeps the doubling delays and returns the dict of
    the rate-limit error; the parser's exception is never raised. *)
Theorem unparsable_marked_response_is_retried :
  forall (World : Type)
         (llm_invoke : string -> World -> (exn + string) * World)
         (time_sleep : Q -> World -> option exn * World)
         (parser_invoke : string -> exn + dict)
         (chunk raw before after : string) (e : exn)
         (max_retries : Z) (base_delay : Q) (w : World),
    (0 <= max_retries <= 1024)%Z ->
    accepts_delays World time_sleep base_delay (Z.to_nat max_retries) ->
    (forall w0, exists w1,
        llm_invoke (_build_prompt chunk) w0 = (inr raw, w1)) ->
    parser_invoke (_clean_json_string raw) = inl e ->
    exn_str e = before ++ _clean_json_string raw ++ after ->
    is_rate_limit (_clean_json_string raw) = true ->
    exists w',
      analyze_code_chunk World llm_invoke time_sleep parser_invoke
                         chunk max_retries base_delay (w, [])
      = (inr (rate_limit_exceeded max_retries),
         (w', flat_map (limited_round chunk base_delay)
                       (seq 0 (Z.to_nat max_retries)))).
Proof.
  intros World llm_invoke time_sleep parser_invoke chunk raw before after e
         max_retries base_delay w Hrange Hacc Hans Hparse Hmsg Hmark.
  unfold analyze_code_chunk.
  apply (retry_loop_failing World llm_invoke time_sleep parser_invoke
           chunk max_retries base_delay) with (a := 0%nat);
    [| unfold float_range; simpl; lia | exact Hacc].
  intros [w0 tr0]. destruct (Hans w0) as [w1 Hw1].
  exists e, (w1, (tr0 ++ [Invoked (_build_prompt chunk)])%list).
  split.
  - unfold attempt_once. now rewrite Hw1, Hparse.
  - rewrite Hmsg. now apply is_rate_limit_context.
Qed.

Lemma default_delays_accepted :
  accepts_delays unit Stub.no_sleep (5 # 1)%Q 5.
Proof.
  intros k w Hk.
  do 5 (destruct k as [|k]; [reflexivity|]). lia.
Qed.

Lemma unparsable_marked_response_is_retried_witness :
  exists w',
    Stub.analyze (Stub.answering (dq "{`retry_after`: 429ms}")) "x = 1"
    = (inr (rate_limit_exceeded 5),
       (w', flat_map (limited_round "x = 1" (5 # 1)) (seq 0 5))).
Proof.
  apply (unparsable_marked_response_is_retried
           unit (Stub.answering (dq "{`retry_after`: 429ms}")) Stub.no_sleep
           Reader.parse_object "x = 1" (dq "{`retry_after`: 429ms}")
           "Invalid json output: " ""
           (Exn "OutputParserException"
                ("Invalid json output: " ++ dq "{`retry_after`: 429ms}"))
           5%Z (5 # 1) tt).
  - lia.
  - exact default_delays_accepted.
  - intro w0. exists w0. reflexivity.
  - reflexivity.
  - reflexivity.
  - reflexivity.
Defined.



End ClientProperties.

Section BackoffProperties.
Import PyStr Clean LLMIntegration.
Local Open Scope string_scope.

Lemma sum_from (l : list Q) (acc : Q) :
  Qeq (fold_right Qplus acc l) (Qplus (fold_right Qplus (0 # 1)%Q l) acc).
Proof.
  induction l as [|x l IH]; simpl.
  - ring.
  - rewrite IH. ring.
Qed.

Lemma total_sleep_limited (chunk : string) (base_delay : Q) (n : nat) :
  Qeq (total_sleep (flat_map (limited_round chunk base_delay) (seq 0 n)))
      (Qmult base_delay (Qminus (inject_Z (2 ^ Z.of_nat n)) (1 # 1)%Q)).
Proof.
  unfold total_sleep. rewrite delays_limited.
  induction n as [|n IH].
  - simpl. ring.
  - rewrite seq_S, map_app, fold_right_app, Nat.add_0_l.
    cbn [map fold_right].
    rewrite sum_from, IH.
    rewrite Nat2Z.inj_succ, Z.pow_succ_r by lia.
    rewrite inject_Z_mult. ring.
Qed.

(** When every attempt fails with an exception taken for a rate limit,
    with at most 1024 retries and delays that [time.sleep] accepts, the time
    slept before the rate-limit error is returned comes to
    [base_delay * (2^max_retries - 1)]: 155 seconds with the default
    arguments. *)
Theorem exhausted_backoff_total :
  forall (World : Type)
         (llm_invoke : string -> World -> (exn + string) * World)
         (time_sleep : Q -> World -> option exn * World)
         (parser_invoke : string -> exn + dict)
         (chunk : string) (max_retries : Z) (base_delay : Q) (w : World),
    (0 <= max_retries <= 1024)%Z ->
    accepts_delays World time_sleep base_delay (Z.to_nat max_retries) ->
    (forall st, exists e st',
        attempt_once World llm_invoke parser_invoke chunk st = (inl e, st')
        /\ is_rate_limit (exn_str e) = true) ->
    Qeq (total_sleep
           (snd (snd (analyze_code_chunk World llm_invoke time_sleep
                                         parser_invoke chunk max_retries
                                         base_delay (w, [])))))
        (Qmult base_delay
               (Qminus (inject_Z (2 ^ Z.of_nat (Z.to_nat max_retries)))
                       (1 # 1)%Q)).
Proof.
  intros World llm_invoke time_sleep parser_invoke chunk max_retries
         base_delay w Hrange Hacc Hfail.
  unfold analyze_code_chunk.
  destruct (retry_loop_failing World llm_invoke time_sleep parser_invoke
              chunk max_retries base_delay Hfail (Z.to_nat max_retries)
              0%nat w []) as [w' Hw'];
    [unfold float_range; simpl; lia | exact Hacc |].
  simpl Z.of_nat in Hw'. rewrite Hw'. simpl snd.
  apply total_sleep_limited.
Qed.

Lemma exhausted_backoff_total_witness :
  Qeq (total_sleep
         (snd (snd (Stub.analyze
                      (Stub.raising (Exn "RateLimitError" "Error code: 429"))
                      "x = 1"))))
      (155 # 1)%Q.
Proof.
  rewrite (exhausted_backoff_total
             unit (Stub.raising (Exn "RateLimitError" "Error code: 429"))
             Stub.no_sleep Reader.parse_object "x = 1" 5%Z (5 # 1)%Q tt).
  - reflexivity.
  - lia.
  - intros k w Hk.
    do 5 (destruct k as [|k]; [reflexivity|]). simpl in Hk. lia.
  - intros [w0 tr0].
    exists (Exn "RateLimitError" "Error code: 429"),
           (w0, (tr0 ++ [Invoked (_build_prompt "x = 1")])%list).
    split; reflexivity.
Defined.

Lemma script_loop
      (time_sleep : Q -> Script.world -> option exn * Script.world)
      (parser_invoke : string -> exn + dict)
      (chunk raw : string) (d : dict) (max_retries : Z) (base_delay : Q)
      (rest : Script.world) :
  parser_invoke (_clean_json_string raw) = inr d ->
  forall (errors : list exn) (todo a : nat) (tr : list event),
    forallb (fun e => is_rate_limit (exn_str e)) errors = true ->
    (List.length errors < todo)%nat ->
    (Z.of_nat (a + List.length errors) <= float_range)%Z ->
    (forall k w, (k < a + List.length errors)%nat ->
                 time_sleep (Qmult base_delay (inject_Z (2 ^ Z.of_nat k))) w
                 = (None, w)) ->
    retry_loop Script.world Script.invoke time_sleep parser_invoke
               todo (Z.of_nat a) chunk max_retries base_delay
               ((map inl errors ++ inr raw :: rest)%list, tr)
    = (inr d,
       (rest,
        (tr ++ flat_map (limited_round chunk base_delay)
                        (seq a (List.length errors))
            ++ [Invoked (_build_prompt chunk)])%list)).
Proof.
  intros Hparse errors.
  induction errors as [|e errors IH]; intros todo a tr Hall Hlen Hrange Hacc;
    (destruct todo as [|todo]; [simpl in Hlen; lia|]);
    rewrite retry_loop_step; unfold attempt_once; simpl.
  - now rewrite Hparse.
  - simpl in Hall, Hlen, Hrange, Hacc. apply andb_true_iff in Hall.
    destruct Hall as [He Hall]. rewrite He.
    assert (Hlt : (float_range <=? Z.of_nat a)%Z = false)
      by (apply Z.leb_gt; lia).
    rewrite Hlt, (Hacc a _ ltac:(lia)).
    replace (Z.of_nat a + 1)%Z with (Z.of_nat (S a)) by lia.
    rewrite (IH todo (S a) _ Hall); [| lia | lia |].
    + rewrite <- !app_assoc. reflexivity.
    + intros k w Hk. apply Hacc. lia.
Qed.

(** With an oracle that raises rate-limit errors a number of times smaller
    than [max_retries], and not above 1024, and then answers a response that
    parses, and with a sleep that returns on the delays, the analysis
    returns the parsed result: it has called the oracle once per error and
    once more, and slept [base_delay * 2^k] after the error number [k]. *)
Theorem retries_then_returns :
  forall (time_sleep : Q -> Script.world -> option exn * Script.world)
         (parser_invoke : string -> exn + dict)
         (chunk raw : string) (d : dict) (max_retries : Z) (base_delay : Q)
         (errors : list exn) (rest : Script.world),
    forallb (fun e => is_rate_limit (exn_str e)) errors = true ->
    (Z.of_nat (List.length errors) < max_retries)%Z ->
    (List.length errors <= 1024)%nat ->
    (forall k w, (k < List.length errors)%nat ->
                 time_sleep (Qmult base_delay (inject_Z (2 ^ Z.of_nat k))) w
                 = (None, w)) ->
    parser_invoke (_clean_json_string raw) = inr d ->
    analyze_code_chunk Script.world Script.invoke time_sleep parser_invoke
                       chunk max_retries base_delay
                       ((map inl errors ++ inr raw :: rest)%list, [])
    = (inr d,
       (rest,
        (flat_map (limited_round chunk base_delay)
                  (seq 0 (List.length errors))
           ++ [Invoked (_build_prompt chunk)])%list)).
Proof.
  intros time_sleep parser_invoke chunk raw d max_retries base_delay errors
         rest Hall Hlen Hmany Hacc Hparse.
  unfold analyze_code_chunk.
  apply (script_loop time_sleep parser_invoke chunk raw d max_retries
                     base_delay rest Hparse errors (Z.to_nat max_retries)
                     0%nat []);
    [exact Hall | lia | unfold float_range; simpl; lia | exact Hacc].
Qed.

Lemma retries_then_returns_witness :
  analyze_code_chunk Script.world Script.invoke Script.sleep
                     Reader.parse_object "x = 1" 5%Z (5 # 1)%Q
                     ([inl (Exn "RateLimitError" "Error code: 429");
                       inl (Exn "RateLimitError" "Rate limit reached");
                       inr Stub.noisy], [])
  = (inr Stub.noisy_object,
     ([],
      (flat_map (limited_round "x = 1" (5 # 1)%Q) (seq 0 2)
         ++ [Invoked (_build_prompt "x = 1")])%list)).
Proof.
  apply (retries_then_returns
           Script.sleep Reader.parse_object "x = 1" Stub.noisy
           Stub.noisy_object 5%Z (5 # 1)%Q
           [Exn "RateLimitError" "Error code: 429";
            Exn "RateLimitError" "Rate limit reached"] []).
  - reflexivity.
  - simpl. lia.
  - simpl. lia.
  - intros k w Hk. simpl in Hk.
    do 2 (destruct k as [|k]; [reflexivity|]). lia.
  - vm_compute. reflexivity.
Defined.

End BackoffProperties.

(* ================================================================== *)
(** * Further properties of the normalisation *)
(* ================================================================== *)

Section CleanProperties.
Import PyStr Clean.
Local Open Scope string_scope.

Lemma sub_leading_length (s : string) :
  (String.length (sub_leading s) <= String.length s)%nat.
Proof.
  induction s as [|c s IH]; simpl; [lia|].
  destruct (Ascii.eqb c "{"); simpl; lia.
Qed.

Lemma drop_to_close_length (s : string) :
  (String.length (drop_to_close s) <= String.length s)%nat.
Proof.
  induction s as [|c s IH]; simpl; [lia|].
  destruct (Ascii.eqb c "}"); simpl; lia.
Qed.

Lemma sub_trailing_length (s : string) :
  (String.length (sub_trailing s) <= String.length s)%nat.
Proof.
  unfold sub_trailing. rewrite slength_rev.
  pose proof (drop_to_close_length (rev s)) as H.
  now rewrite slength_rev in H.
Qed.

Lemma sub_commas_length (s : string) :
  (String.length (sub_commas s) <= String.length s)%nat.
Proof.
  remember (String.length s) as n eqn:Hn.
  assert (Hle : (String.length s <= n)%nat) by lia.
  rewrite Hn. clear Hn. revert s Hle.
  induction n as [|n IH]; intros s Hle.
  - destruct s; simpl in Hle; [simpl; lia | lia].
  - destruct s as [|c r]; [simpl; lia|].
    simpl in Hle. rewrite sub_commas_cons.
    pose proof (lstrip_length r) as Hl.
    pose proof (IH r ltac:(lia)) as Hr.
    destruct (Ascii.eqb c ","); [|simpl; lia].
    destruct (lstrip r) as [|b r'] eqn:E; [simpl; lia|].
    simpl in Hl. destruct (closer b); [|simpl; lia].
    pose proof (IH r' ltac:(lia)) as Hr'. simpl. lia.
Qed.

Lemma strip_length (s : string) :
  (String.length (strip s) <= String.length s)%nat.
Proof.
  unfold strip, rstrip. rewrite slength_rev.
  pose proof (lstrip_length (rev (lstrip s))) as H1.
  pose proof (lstrip_length s) as H2.
  rewrite slength_rev in H1. lia.
Qed.

Lemma clean_no_close_after (s : string) :
  has_char "}" (sub_leading s) = false -> _clean_json_string s = "".
Proof.
  intro H. unfold _clean_json_string.
  now rewrite (sub_trailing_none _ H).
Qed.

Lemma sub_leading_keeps_pair (pre body post : string) :
  has_char "}" (sub_leading (pre ++ String "{" (body ++ String "}" post)))
  = true.
Proof.
  assert (H : forall x, has_char "}" (x ++ String "}" post) = true).
  { intro x. rewrite has_char_app.
    change (has_char "}" (String "}" post)) with true.
    apply orb_true_r. }
  induction pre as [|c pre IH]; simpl.
  - apply H.
  - destruct (Ascii.eqb c "{"); [|exact IH].
    replace (String c (pre ++ String "{" (body ++ String "}" post)))
      with ((String c (pre ++ String "{" body)) ++ String "}" post)
      by (simpl; now rewrite sapp_assoc).
    apply H.
Qed.

(** The text between the first opening brace and the last closing brace
    after it, when there is such a pair. *)
Lemma braced_split (s : string) :
  has_char "}" (sub_leading s) = true ->
  exists pre body post,
    s = pre ++ "{" ++ body ++ "}" ++ post
    /\ has_char "{" pre = false /\ has_char "}" post = false.
Proof.
  intro H.
  destruct (has_char "{" s) eqn:Hopen.
  - destruct (has_char_first _ _ Hopen) as (pre & rest & -> & Hpre).
    rewrite (sub_leading_split _ _ Hpre) in H. simpl in H.
    destruct (has_char_last _ _ H) as (body & post & -> & Hpost).
    exists pre, body, post. repeat split; assumption.
  - rewrite (sub_leading_none _ Hopen) in H. discriminate.
Qed.

(** The result of [_clean_json_string] is never longer than its argument,
    and it is either empty or a text that starts with an opening brace and
    ends with a closing brace.  It is not empty exactly when the argument
    has an opening brace with a closing brace somewhere after it. *)
Theorem clean_result_shape :
  (forall s : string,
      (String.length (_clean_json_string s) <= String.length s)%nat
      /\ (_clean_json_string s = ""
          \/ exists y, _clean_json_string s = String "{" (y ++ "}")))
  /\ (forall pre body post : string,
         _clean_json_string (pre ++ "{" ++ body ++ "}" ++ post) <> "")
  /\ (forall s : string,
         _clean_json_string s <> "" ->
         exists pre body post, s = pre ++ "{" ++ body ++ "}" ++ post).
Proof.
  assert (Hshape : forall s, has_char "}" (sub_leading s) = true ->
                             exists y, _clean_json_string s
                                       = String "{" (y ++ "}")).
  { intros s H.
    destruct (braced_split s H) as (pre & body & post & -> & Hpre & Hpost).
    rewrite (clean_braced _ _ _ Hpre Hpost). simpl.
    rewrite sub_commas_cons. simpl.
    destruct (sub_commas_keeps_last body) as [y Hy].
    exists y. now rewrite Hy. }
  split; [|split].
  - intro s. split.
    + unfold _clean_json_string.
      pose proof (strip_length (sub_commas (sub_trailing (sub_leading s)))).
      pose proof (sub_commas_length (sub_trailing (sub_leading s))).
      pose proof (sub_trailing_length (sub_leading s)).
      pose proof (sub_leading_length s). lia.
    + destruct (has_char "}" (sub_leading s)) eqn:E.
      * right. now apply Hshape.
      * left. now apply clean_no_close_after.
  - intros pre body post.
    destruct (Hshape (pre ++ "{" ++ body ++ "}" ++ post)) as [y Hy].
    + apply sub_leading_keeps_pair.
    + rewrite Hy. discriminate.
  - intros s Hne.
    destruct (has_char "}" (sub_leading s)) eqn:E.
    + destruct (braced_split s E) as (pre & body & post & Hs & _).
      now exists pre, body, post.
    + now rewrite (clean_no_close_after s E) in Hne.
Qed.

Lemma clean_result_shape_witness :
  exists pre body post,
    "Sure: {[1, ]} ok" = pre ++ "{" ++ body ++ "}" ++ post.
Proof.
  destruct clean_result_shape as (_ & _ & H).
  apply (H "Sure: {[1, ]} ok"). vm_compute. discriminate.
Defined.

End CleanProperties.

(* ================================================================== *)
(** * Further properties of the synchronous extraction *)
(* ================================================================== *)

Section ExtractProperties.
Import PyStr LLMIntegration KnowledgeExtractor.

Variable World : Type.
Variable llm_invoke : string -> World -> (exn + string) * World.
Variable parser_parse : string -> exn + json.
Variable faiss_from_documents : list chunk_info -> option exn.

Local Abbreviation extract :=
  (extract World llm_invoke parser_parse faiss_from_documents).
Local Abbreviation project_summary :=
  (project_summary World llm_invoke parser_parse).

Lemma extract_methods_distinct_witness :
  exists k,
    KnowledgeExtractor.extract
      unit (Stub.answering Stub.methods_only) Stub.parse_json Stub.faiss_ok
      None tt
      (futures_of (Stub.outcome_for Stub.methods_only)
                  [Stub.chunk_a; Stub.chunk_b])
      [0; 1]%nat = inr k
    /\ distinct (methods k).
Proof.
  eexists. split; [vm_compute; reflexivity|].
  apply (extract_methods_distinct
           unit (Stub.answering Stub.methods_only) Stub.parse_json
           Stub.faiss_ok None tt
           (futures_of (Stub.outcome_for Stub.methods_only)
                       [Stub.chunk_a; Stub.chunk_b])
           [0; 1]%nat).
  vm_compute. reflexivity.
Defined.

Lemma as_completed_incl (futures : list future) (order : list nat) :
  incl (as_completed order futures) futures.
Proof.
  unfold as_completed. intros fut H.
  apply in_flat_map in H. destruct H as (i & _ & Hi).
  destruct (nth_error futures i) as [x|] eqn:E; [|destruct Hi].
  destruct Hi as [<-|[]]. now apply nth_error_In in E.
Qed.

(** What [extract] returns when it returns, in terms of the futures in
    their order of completion. *)
Lemma extract_returns (readme : option (exn + string)) (w : World)
      (futures : list future) (order : list nat) (k : knowledge) :
  extract readme w futures order = inr k ->
  faiss_from_documents (map fst futures) = None
  /\ existsb (fun fut => raises (methods_of fut))
             (as_completed order futures) = false
  /\ k = Knowledge (fst (project_summary readme w))
                   (flat_map overview_of (as_completed order futures))
                   (dedup_onto []
                      (flat_map (fun fut => unwrap (methods_of fut))
                                (as_completed order futures)))
                   (flat_map complexity_of (as_completed order futures))
                   (flat_map notes_of (as_completed order futures)).
Proof.
  unfold KnowledgeExtractor.extract.
  destruct (faiss_from_documents (map fst futures)); [discriminate|].
  destruct (KnowledgeExtractor.project_summary
              World llm_invoke parser_parse readme w) as [info w'].
  destruct (existsb (fun fut => raises (methods_of fut))
                    (as_completed order futures)) eqn:E.
  - destruct (merge_all_raises _ (initial info) E) as [e He].
    rewrite He. discriminate.
  - rewrite (merge_all_returns _ (initial info) E).
    intro H. injection H as <-. repeat split.
Qed.

Lemma keyed_attributed (c : chunk_info) (key : string) (result : dict)
      (x : json) :
  In x (keyed c key result) -> exists v, x = entry c key v.
Proof.
  unfold keyed. destruct (Dict.get key result) as [v|]; [|intros []].
  intros [<-|[]]. now exists v.
Qed.

(** Every entry that [extract] puts in [overview], [complexity] and
    [notes] is the dict of the file and the index of one of the chunks with
    one value under the name of its sequence: an entry is always attributed
    to a chunk of the input. *)
Theorem extract_entries_attributed :
  forall (readme : option (exn + string)) (w : World)
         (futures : list future) (order : list nat) (k : knowledge),
    extract readme w futures order = inr k ->
    Forall (fun x => exists c v, In c (map fst futures)
                                 /\ x = entry c "overview" v) (overview k)
    /\ Forall (fun x => exists c v, In c (map fst futures)
                                    /\ x = entry c "complexity" v)
              (complexity k)
    /\ Forall (fun x => exists c v, In c (map fst futures)
                                    /\ x = entry c "notes" v) (notes k).
Proof.
  intros readme w futures order k H.
  destruct (extract_returns _ _ _ _ _ H) as (_ & _ & ->). simpl.
  repeat split; apply Forall_forall; intros x Hx;
    apply in_flat_map in Hx; destruct Hx as ([c outcome] & Hfut & Hx);
    apply as_completed_incl in Hfut;
    assert (Hc : In c (map fst futures))
      by (apply in_map_iff; now exists (c, outcome)).
  - unfold overview_of in Hx. simpl in Hx.
    destruct outcome as [e|result]; [destruct Hx|].
    destruct (keyed_attributed _ _ _ _ Hx) as [v ->]. now exists c, v.
  - unfold complexity_of in Hx. simpl in Hx.
    destruct outcome as [e|result]; [destruct Hx|].
    destruct (keyed_attributed _ _ _ _ Hx) as [v ->]. now exists c, v.
  - unfold notes_of in Hx. simpl in Hx.
    destruct outcome as [e|result].
    + destruct Hx as [<-|[]]. now exists c, (llm_error e).
    + destruct (has_any_key result).
      * destruct (keyed_attributed _ _ _ _ Hx) as [v ->]. now exists c, v.
      * destruct Hx as [<-|[]]. now exists c, (fallback_note result).
Qed.

End ExtractProperties.

Section ExtractFailures.
Import PyStr LLMIntegration KnowledgeExtractor Outcome.

Variable World : Type.
Variable llm_invoke : string -> World -> (exn + string) * World.
Variable parser_parse : string -> exn + json.
Variable faiss_from_documents : list chunk_info -> option exn.

Local Abbreviation extract :=
  (extract World llm_invoke parser_parse faiss_from_documents).
Local Abbreviation project_summary :=
  (project_summary World llm_invoke parser_parse).

Lemma extract_entries_attributed_witness :
  exists k,
    KnowledgeExtractor.extract
      unit (Stub.answering Stub.noisy) Stub.parse_json Stub.faiss_ok None tt
      (futures_of (Stub.outcome_for Stub.noisy) [Stub.chunk_a; Stub.chunk_b])
      [1; 0]%nat = inr k
    /\ Forall (fun x => exists c v, In c [Stub.chunk_a; Stub.chunk_b]
                                    /\ x = entry c "overview" v) (overview k).
Proof.
  eexists. split; [vm_compute; reflexivity|].
  apply (extract_entries_attributed
           unit (Stub.answering Stub.noisy) Stub.parse_json Stub.faiss_ok
           None tt
           (futures_of (Stub.outcome_for Stub.noisy)
                       [Stub.chunk_a; Stub.chunk_b])
           [1; 0]%nat).
  vm_compute. reflexivity.
Defined.

Lemma in_as_completed (futures : list future) (order : list nat)
      (fut : future) :
  Permutation order (seq 0 (List.length futures)) ->
  In fut futures -> In fut (as_completed order futures).
Proof.
  intros HP H.
  apply (Permutation_in _ (Permutation_sym (as_completed_perm _ _ HP))), H.
Qed.

(** When all the futures complete and [extract] returns, no failure is
    left out of [notes]: a chunk whose analysis raised has the note
    "LLM error: <class>: <message>", a chunk whose result has none of the
    four keys has the note of its [raw_response], of its [error] or
    "Unknown LLM response", and so a chunk whose retries were used up has the
    note "Rate limit exceeded after <n> retries.". *)
Theorem extract_notes_every_failure :
  forall (readme : option (exn + string)) (w : World)
         (futures : list future) (order : list nat) (k : knowledge)
         (c : chunk_info),
    Permutation order (seq 0 (List.length futures)) ->
    extract readme w futures order = inr k ->
    (forall e, In (c, inl e) futures ->
               In (entry c "notes" (llm_error e)) (notes k))
    /\ (forall result,
           In (c, inr result) futures -> has_any_key result = false ->
           In (entry c "notes" (fallback_note result)) (notes k))
    /\ (forall n,
           In (c, inr (rate_limit_exceeded n)) futures ->
           In (entry c "notes"
                     (JStr ("Rate limit exceeded after " ++ str_of_int n
                            ++ " retries.")))
              (notes k)).
Proof.
  intros readme w futures order k c HP H.
  destruct (extract_returns _ _ _ _ _ _ _ _ _ H) as (_ & _ & ->). simpl.
  assert (Hfall : forall result,
             In (c, inr result) futures -> has_any_key result = false ->
             In (entry c "notes" (fallback_note result))
                (flat_map notes_of (as_completed order futures))).
  { intros result Hin Hkeys. apply in_flat_map.
    exists (c, inr result). split; [now apply in_as_completed|].
    unfold notes_of. simpl. rewrite Hkeys. now left. }
  split; [|split].
  - intros e Hin. apply in_flat_map.
    exists (c, inl e). split; [now apply in_as_completed | now left].
  - exact Hfall.
  - intros n Hin. apply (Hfall _ Hin). reflexivity.
Qed.

Lemma existsb_pointwise {A : Type} (f g : A -> bool) :
  (forall x, f x = g x) -> forall l, existsb f l = existsb g l.
Proof.
  intros H l. induction l as [|x l IH]; simpl; [reflexivity|].
  now rewrite H, IH.
Qed.

Lemma methods_not_iterable_spec (fut : future) :
  raises (methods_of fut) = methods_not_iterable fut.
Proof.
  destruct fut as [c [e|result]]; unfold methods_of, methods_not_iterable;
    simpl; [reflexivity|].
  destruct (Dict.get "methods" result) as [[| | | | |]|]; reflexivity.
Qed.

(** [extract] raises the exception of the vector store when the store
    cannot be built, and it raises as soon as the value under ['methods'] of
    some result is [None], a boolean or a number: one such result makes the
    whole extraction fail, whatever the other chunks gave and in whatever
    order the futures complete. *)
Theorem extract_aborts_on_methods_not_iterable :
  forall (readme : option (exn + string)) (w : World)
         (futures : list future) (order : list nat),
    Permutation order (seq 0 (List.length futures)) ->
    (forall e, faiss_from_documents (map fst futures) = Some e ->
               extract readme w futures order = inl e)
    /\ (existsb methods_not_iterable futures = true ->
        raises (extract readme w futures order) = true).
Proof.
  intros readme w futures order HP.
  unfold KnowledgeExtractor.extract. split.
  - intros e ->. reflexivity.
  - intro Hbad.
    destruct (faiss_from_documents (map fst futures)); [reflexivity|].
    destruct (KnowledgeExtractor.project_summary
                World llm_invoke parser_parse readme w) as [info w'].
    rewrite <- (existsb_perm methods_not_iterable _ _
                             (as_completed_perm _ _ HP)) in Hbad.
    rewrite <- (existsb_pointwise _ _ methods_not_iterable_spec) in Hbad.
    destruct (merge_all_raises _ (initial info) Hbad) as [e ->]. reflexivity.
Qed.

Lemma flat_map_short {A B : Type} (f : A -> list B) (l : list A) :
  (forall x, List.length (f x) <= 1)%nat ->
  (List.length (flat_map f l) <= List.length l)%nat.
Proof.
  intro H. induction l as [|x l IH]; simpl; [lia|].
  rewrite length_app. specialize (H x). lia.
Qed.

Lemma keyed_short (c : chunk_info) (key : string) (result : dict) :
  (List.length (keyed c key result) <= 1)%nat.
Proof. unfold keyed. destruct (Dict.get key result); simpl; lia. Qed.

(** The aggregate of [extract] has the project summary as [project_info],
    whatever the chunks gave, and at most one entry per chunk in each of
    [overview], [complexity] and [notes]. *)
Theorem extract_header_and_sizes :
  forall (readme : option (exn + string)) (w : World)
         (futures : list future) (order : list nat) (k : knowledge),
    Permutation order (seq 0 (List.length futures)) ->
    extract readme w futures order = inr k ->
    project_info k = fst (project_summary readme w)
    /\ (List.length (overview k) <= List.length futures)%nat
    /\ (List.length (complexity k) <= List.length futures)%nat
    /\ (List.length (notes k) <= List.length futures)%nat.
Proof.
  intros readme w futures order k HP H.
  destruct (extract_returns _ _ _ _ _ _ _ _ _ H) as (_ & _ & ->). simpl.
  rewrite <- (Permutation_length (as_completed_perm _ _ HP)).
  split; [reflexivity|].
  repeat split; apply flat_map_short; intros [c [e|result]];
    unfold overview_of, complexity_of, notes_of; simpl; try lia;
    try apply keyed_short.
  destruct (has_any_key result); [apply keyed_short | simpl; lia].
Qed.

End ExtractFailures.

Section ExtractWitnesses.
Import PyStr LLMIntegration KnowledgeExtractor Outcome.

Lemma extract_notes_every_failure_witness :
  In (entry Stub.chunk_b "notes" (llm_error (Exn "APIConnectionError" "Connection error.")))
     [entry Stub.chunk_b "notes"
            (JStr "LLM error: APIConnectionError: Connection error.");
      entry Stub.chunk_a "notes"
            (JStr "Rate limit exceeded after 5 retries.")].
Proof.
  destruct (extract_notes_every_failure
              unit (Stub.answering "") Stub.parse_json Stub.faiss_ok None tt
              [(Stub.chunk_a, inr (rate_limit_exceeded 5));
               (Stub.chunk_b,
                inl (Exn "APIConnectionError" "Connection error."))]
              [1; 0]%nat
              (Knowledge (JObj []) [] [] []
                 [entry Stub.chunk_b "notes"
                    (JStr "LLM error: APIConnectionError: Connection error.");
                  entry Stub.chunk_a "notes"
                    (JStr "Rate limit exceeded after 5 retries.")])
              Stub.chunk_b) as (Herr & _ & _).
  - simpl. apply perm_swap.
  - vm_compute. reflexivity.
  - apply (Herr (Exn "APIConnectionError" "Connection error.")).
    simpl. right. left. reflexivity.
Defined.

Lemma extract_aborts_on_methods_not_iterable_witness :
  raises (KnowledgeExtractor.extract
            unit (Stub.answering "") Stub.parse_json Stub.faiss_ok None tt
            [(Stub.chunk_a, inr Stub.noisy_object);
             (Stub.chunk_b, inr [("methods", JNull)])]
            [1; 0]%nat)
  = true.
Proof.
  apply (extract_aborts_on_methods_not_iterable
           unit (Stub.answering "") Stub.parse_json Stub.faiss_ok None tt
           [(Stub.chunk_a, inr Stub.noisy_object);
            (Stub.chunk_b, inr [("methods", JNull)])]
           [1; 0]%nat).
  - simpl. apply perm_swap.
  - reflexivity.
Defined.

Lemma extract_header_and_sizes_witness :
  exists k,
    KnowledgeExtractor.extract
      unit (Stub.answering Stub.noisy) Stub.parse_json Stub.faiss_ok None tt
      (futures_of (Stub.outcome_for Stub.noisy) [Stub.chunk_a; Stub.chunk_b])
      [1; 0]%nat = inr k
    /\ project_info k = JObj []
    /\ (List.length (overview k) <= 2)%nat.
Proof.
  eexists. split; [vm_compute; reflexivity|].
  destruct (extract_header_and_sizes
              unit (Stub.answering Stub.noisy) Stub.parse_json Stub.faiss_ok
              None tt
              (futures_of (Stub.outcome_for Stub.noisy)
                          [Stub.chunk_a; Stub.chunk_b])
              [1; 0]%nat _ (perm_swap 0%nat 1%nat [])
              eq_refl) as (Hinfo & Hov & _).
  split; [exact Hinfo | exact Hov].
Defined.

End ExtractWitnesses.

(* ================================================================== *)
(** * Further properties of the asynchronous extraction *)
(* ================================================================== *)

Section AsyncProperties.
Import PyStr LLMIntegration KnowledgeExtractor Outcome.

Variable World : Type.
Variable llm_invoke : string -> World -> (exn + string) * World.
Variable parser_parse : string -> exn + json.
Variable faiss_from_documents : list chunk_info -> option exn.

Local Abbreviation extract_async :=
  (extract_async World llm_invoke parser_parse faiss_from_documents).
Local Abbreviation project_summary :=
  (project_summary World llm_invoke parser_parse).

Local Abbreviation values :=
  (flat_map (fun t : exn + list json =>
               match t with inl _ => [] | inr v => [v] end)).

(** What [extract_async] returns when it returns. *)
Lemma extract_async_returns (readme : option (exn + string)) (w : World)
      (futures : list future) (order : list nat) (k : knowledge) :
  Permutation order (seq 0 (List.length futures)) ->
  extract_async readme w futures order = inr k ->
  faiss_from_documents (map fst futures) = None
  /\ existsb raises (map process_chunk_with_limit futures) = false
  /\ k = place_all (initial (fst (project_summary readme w)))
                   (values (map process_chunk_with_limit futures)).
Proof.
  intro HP. unfold KnowledgeExtractor.extract_async.
  destruct (faiss_from_documents (map fst futures)); [discriminate|].
  destruct (KnowledgeExtractor.project_summary
              World llm_invoke parser_parse readme w) as [info w'].
  pose proof (gather_spec (map process_chunk_with_limit futures) order) as G.
  rewrite length_map in G. specialize (G HP).
  destruct (existsb raises (map process_chunk_with_limit futures)).
  - destruct G as [e ->]. discriminate.
  - rewrite G. intro H. injection H as <-. repeat split.
Qed.

Lemma in_values (futures : list future) (fut : future) (out : list json) :
  In fut futures -> process_chunk_with_limit fut = inr out ->
  In out (values (map process_chunk_with_limit futures)).
Proof.
  intros Hin Hout. apply in_flat_map.
  exists (process_chunk_with_limit fut). split.
  - now apply in_map.
  - rewrite Hout. now left.
Qed.

Lemma place_notes_mono (k : knowledge) (item x : json) :
  In x (notes k) -> In x (notes (place k item)).
Proof.
  unfold place. intro H.
  destruct (type_is "overview" item); [exact H|].
  destruct (type_is "methods" item); [exact H|].
  destruct (type_is "complexity" item); [exact H|].
  destruct (type_is "notes" item); [|exact H].
  simpl. apply in_or_app. now left.
Qed.

Lemma place_list_notes_mono (res : list json) (x : json) :
  forall k, In x (notes k) -> In x (notes (fold_left place res k)).
Proof.
  induction res as [|item res IH]; intros k H; simpl; [exact H|].
  now apply IH, place_notes_mono.
Qed.

Lemma place_list_notes_in (res : list json) (x : json) :
  to_notes x = true -> In x res ->
  forall k, In x (notes (fold_left place res k)).
Proof.
  intro Hx. induction res as [|item res IH]; intros Hin k; [destruct Hin|].
  simpl. destruct Hin as [->|Hin]; [|now apply IH].
  apply place_list_notes_mono.
  unfold to_notes in Hx. unfold place.
  destruct (type_is "overview" x); [discriminate|].
  destruct (type_is "methods" x); [discriminate|].
  destruct (type_is "complexity" x); [discriminate|].
  destruct (type_is "notes" x); [|discriminate].
  simpl. apply in_or_app. right. now left.
Qed.

Lemma place_all_notes_in (results : list (list json)) (res : list json)
      (x : json) :
  to_notes x = true -> In x res -> In res results ->
  forall k, In x (notes (place_all k results)).
Proof.
  unfold place_all. intros Hx Hin.
  induction results as [|r results IH]; intros Hres k; [destruct Hres|].
  simpl. destruct Hres as [->|Hres]; [|now apply IH].
  assert (H : In x (notes (fold_left place res k)))
    by now apply place_list_notes_in.
  clear IH. revert H. generalize (fold_left place res k).
  induction results as [|r results IH]; intros k' H; simpl; [exact H|].
  now apply IH, place_list_notes_mono.
Qed.

Lemma no_key_gets (result : dict) :
  has_any_key result = false ->
  Dict.get "overview" result = None /\ Dict.get "methods" result = None
  /\ Dict.get "complexity" result = None /\ Dict.get "notes" result = None.
Proof.
  unfold has_any_key, Dict.mem.
  destruct (Dict.get "overview" result); [discriminate|].
  destruct (Dict.get "methods" result); [discriminate|].
  destruct (Dict.get "complexity" result); [discriminate|].
  destruct (Dict.get "notes" result); [discriminate|].
  repeat split.
Qed.

(** When [extract_async] returns, no failure is left out of [notes]: a
    chunk whose analysis raised has the note "LLM error: <class>:
    <message>", a chunk whose result has none of the four keys has the note
    of its [raw_response], of its [error] or "Unknown LLM response", and so
    a chunk whose retries were used up has the note "Rate limit exceeded
    after <n> retries.". *)
Theorem extract_async_notes_every_failure :
  forall (readme : option (exn + string)) (w : World)
         (futures : list future) (order : list nat) (k : knowledge)
         (c : chunk_info),
    Permutation order (seq 0 (List.length futures)) ->
    extract_async readme w futures order = inr k ->
    (forall e, In (c, inl e) futures ->
               In (typed_entry "notes" c "notes" (llm_error e)) (notes k))
    /\ (forall result,
           In (c, inr result) futures -> has_any_key result = false ->
           In (typed_entry "notes" c "notes" (fallback_note result))
              (notes k))
    /\ (forall n,
           In (c, inr (rate_limit_exceeded n)) futures ->
           In (typed_entry "notes" c "notes"
                           (JStr ("Rate limit exceeded after "
                                  ++ str_of_int n ++ " retries.")))
              (notes k)).
Proof.
  intros readme w futures order k c HP H.
  destruct (extract_async_returns _ _ _ _ _ HP H) as (_ & _ & ->).
  assert (Hfall : forall result,
             In (c, inr result) futures -> has_any_key result = false ->
             In (typed_entry "notes" c "notes" (fallback_note result))
                (notes (place_all
                          (initial (fst (project_summary readme w)))
                          (values (map process_chunk_with_limit futures))))).
  { intros result Hin Hkeys.
    apply (place_all_notes_in
             _ [typed_entry "notes" c "notes" (fallback_note result)]);
      [reflexivity | now left |].
    apply (in_values _ _ _ Hin). simpl.
    destruct (no_key_gets _ Hkeys) as (-> & -> & -> & ->). reflexivity. }
  split; [|split].
  - intros e Hin.
    apply (place_all_notes_in
             _ [typed_entry "notes" c "notes" (llm_error e)]);
      [reflexivity | now left |].
    now apply (in_values _ _ _ Hin).
  - exact Hfall.
  - intros n Hin. apply (Hfall _ Hin). reflexivity.
Qed.

Lemma existsb_after_map {A B : Type} (f : B -> bool) (g : A -> B)
      (l : list A) :
  existsb (fun x => f (g x)) l = existsb f (map g l).
Proof.
  induction l as [|x l IH]; simpl; [reflexivity | now rewrite IH].
Qed.

Lemma method_items_raises (l : list json) :
  raises (method_items l) = negb (forallb is_object l).
Proof.
  induction l as [|m l IH]; simpl; [reflexivity|].
  destruct m; simpl; try reflexivity.
  destruct (method_items l); simpl in *; exact IH.
Qed.

Lemma process_raises (fut : future) :
  raises (process_chunk_with_limit fut) = methods_not_objects fut.
Proof.
  destruct fut as [c [e|result]]; unfold methods_not_objects; simpl;
    [reflexivity|].
  destruct (Dict.get "methods" result) as [ms|].
  - destruct (py_iter ms) as [e|l]; [reflexivity|].
    rewrite <- method_items_raises.
    destruct (method_items l) as [e|items]; [reflexivity|].
    destruct (Dict.get "overview" result), items,
      (Dict.get "complexity" result), (Dict.get "notes" result);
      reflexivity.
  - destruct (Dict.get "overview" result),
      (Dict.get "complexity" result), (Dict.get "notes" result);
      reflexivity.
Qed.

(** [extract_async] raises the exception of the vector store when the
    store cannot be built, and it raises as soon as for some result the
    value under ['methods'] cannot be iterated or gives a value that is not
    a dict (a string among the methods, or the methods given as one string
    or as one dict): one such result makes the whole extraction fail,
    whatever the other chunks gave and in whatever order the tasks
    complete. *)
Theorem extract_async_aborts_on_methods_not_objects :
  forall (readme : option (exn + string)) (w : World)
         (futures : list future) (order : list nat),
    Permutation order (seq 0 (List.length futures)) ->
    (forall e, faiss_from_documents (map fst futures) = Some e ->
               extract_async readme w futures order = inl e)
    /\ (existsb methods_not_objects futures = true ->
        raises (extract_async readme w futures order) = true).
Proof.
  intros readme w futures order HP.
  unfold KnowledgeExtractor.extract_async. split.
  - intros e ->. reflexivity.
  - intro Hbad.
    destruct (faiss_from_documents (map fst futures)); [reflexivity|].
    destruct (KnowledgeExtractor.project_summary
                World llm_invoke parser_parse readme w) as [info w'].
    pose proof (gather_spec (map process_chunk_with_limit futures) order)
      as G.
    rewrite length_map in G. specialize (G HP).
    rewrite <- (existsb_pointwise _ _ process_raises), existsb_after_map
      in Hbad.
    rewrite Hbad in G. destruct G as [e ->]. reflexivity.
Qed.

End AsyncProperties.

Section AsyncWitnesses.
Import PyStr LLMIntegration KnowledgeExtractor Outcome.

Lemma extract_async_notes_every_failure_witness :
  In (typed_entry "notes" Stub.chunk_a "notes"
                  (JStr "Rate limit exceeded after 5 retries."))
     [typed_entry "notes" Stub.chunk_a "notes"
                  (JStr "Rate limit exceeded after 5 retries.");
      typed_entry "notes" Stub.chunk_b "notes"
                  (JStr "LLM error: APIConnectionError: Connection error.")].
Proof.
  destruct (extract_async_notes_every_failure
              unit (Stub.answering "") Stub.parse_json Stub.faiss_ok None tt
              [(Stub.chunk_a, inr (rate_limit_exceeded 5));
               (Stub.chunk_b,
                inl (Exn "APIConnectionError" "Connection error."))]
              [1; 0]%nat
              (Knowledge (JObj []) [] [] []
                 [typed_entry "notes" Stub.chunk_a "notes"
                    (JStr "Rate limit exceeded after 5 retries.");
                  typed_entry "notes" Stub.chunk_b "notes"
                    (JStr "LLM error: APIConnectionError: Connection error.")])
              Stub.chunk_a) as (_ & _ & Hlim).
  - simpl. apply perm_swap.
  - vm_compute. reflexivity.
  - apply (Hlim 5%Z). simpl. left. reflexivity.
Defined.

Lemma extract_async_aborts_on_methods_not_objects_witness :
  raises (extract_async
            unit (Stub.answering "") Stub.parse_json Stub.faiss_ok None tt
            [(Stub.chunk_a, inr Stub.noisy_object);
             (Stub.chunk_b, inr [("methods", JArr [JStr "f"])])]
            [1; 0]%nat)
  = true.
Proof.
  apply (extract_async_aborts_on_methods_not_objects
           unit (Stub.answering "") Stub.parse_json Stub.faiss_ok None tt
           [(Stub.chunk_a, inr Stub.noisy_object);
            (Stub.chunk_b, inr [("methods", JArr [JStr "f"])])]
           [1; 0]%nat).
  - simpl. apply perm_swap.
  - reflexivity.
Defined.

End AsyncWitnesses.

Section AsyncMethods.
Import PyStr LLMIntegration KnowledgeExtractor Outcome.

Lemma dict_get_set_same (k : string) (v : json) (d : dict) :
  Dict.get k (Dict.set k v d) = Some v.
Proof.
  induction d as [|[k0 v0] d IH]; simpl.
  - now rewrite String.eqb_refl.
  - destruct (String.eqb_spec k0 k) as [->|Hne]; simpl.
    + now rewrite String.eqb_refl.
    + destruct (String.eqb_spec k0 k); [contradiction | exact IH].
Qed.

Lemma absent_key (k : string) (d : dict) :
  ~ In k (map fst d) -> Dict.mem k d = false.
Proof.
  unfold Dict.mem. induction d as [|[k0 v0] d IH]; simpl; intro H;
    [reflexivity|].
  destruct (String.eqb_spec k0 k) as [->|Hne]; [tauto|].
  apply IH. tauto.
Qed.

Lemma dict_update_get_in (k : string) (v : json) (d : dict) :
  NoDup (map fst d) -> Dict.get k d = Some v ->
  forall d0, Dict.get k (Dict.update d0 d) = Some v.
Proof.
  induction d as [|[k0 v0] d IH]; simpl; intros Hnd Hget d0;
    [discriminate|].
  inversion Hnd as [|? ? Hnotin Hnd']; subst.
  change (Dict.update d0 ((k0, v0) :: d))
    with (Dict.update (Dict.set k0 v0 d0) d).
  destruct (String.eqb_spec k0 k) as [->|Hne].
  - injection Hget as ->.
    rewrite (dict_update_get k d _ (absent_key _ _ Hnotin)).
    apply dict_get_set_same.
  - now apply IH.
Qed.

(** A method that has a key ['type'] of its own keeps it in the item that
    [extract_async] builds, the ['methods'] put first being overwritten: the
    item is filed under the sequence that this value names, so under [notes]
    when it is "notes", and it is dropped when the value is none of the four
    names. *)
Theorem method_own_type_decides :
  forall (d : dict) (v : json) (k : knowledge),
    NoDup (map fst d) ->
    Dict.get "type" d = Some v ->
    exists item,
      method_item (JObj d) = inr item
      /\ (forall ty, type_is ty item = py_eq v (JStr ty))
      /\ (v = JStr "notes" -> place k item = add_note k item)
      /\ (py_eq v (JStr "overview") = false ->
          py_eq v (JStr "methods") = false ->
          py_eq v (JStr "complexity") = false ->
          py_eq v (JStr "notes") = false ->
          place k item = k).
Proof.
  intros d v k Hnd Hget.
  eexists. split; [reflexivity|].
  assert (Hty : forall ty,
             type_is ty (JObj (Dict.update [("type", JStr "methods")] d))
             = py_eq v (JStr ty)).
  { intro ty. unfold type_is.
    now rewrite (dict_update_get_in "type" v d Hnd Hget). }
  split; [exact Hty|]. split.
  - intros ->. unfold place. rewrite !Hty. reflexivity.
  - intros H1 H2 H3 H4. unfold place. now rewrite !Hty, H1, H2, H3, H4.
Qed.

Lemma method_own_type_decides_witness :
  exists item,
    method_item (JObj [("name", JStr "f"); ("type", JStr "function")])
    = inr item
    /\ place (initial (JObj [])) item = initial (JObj []).
Proof.
  destruct (method_own_type_decides
              [("name", JStr "f"); ("type", JStr "function")]
              (JStr "function") (initial (JObj [])))
    as (item & Hitem & _ & _ & Hdrop).
  - repeat constructor; simpl; intuition discriminate.
  - reflexivity.
  - exists item. split; [exact Hitem|].
    apply Hdrop; reflexivity.
Defined.

Lemma filter_all {A : Type} (f : A -> bool) (l : list A) :
  Forall (fun x => f x = true) l -> filter f l = l.
Proof.
  induction 1 as [|x l Hx _ IH]; simpl; [reflexivity|].
  now rewrite Hx, IH.
Qed.

Lemma method_items_tagged (l : list json) :
  forallb method_ok l = true ->
  exists items, method_items l = inr items
                /\ Forall (fun item => to_methods item = true) items
                /\ List.length items = List.length l.
Proof.
  induction l as [|m l IH]; simpl; intro H.
  - exists []. repeat split. constructor.
  - apply andb_true_iff in H. destruct H as [Hm Hl].
    destruct (IH Hl) as (items & -> & Hitems & Hlen).
    destruct m as [| | | | |d]; simpl in Hm; try discriminate.
    apply negb_true_iff in Hm. simpl.
    eexists. split; [reflexivity|]. split; [|simpl; now rewrite Hlen].
    constructor; [|exact Hitems].
    unfold to_methods, type_is.
    rewrite (dict_update_get "type" d _ Hm). reflexivity.
Qed.

Lemma process_methods (fut : future) :
  outcome_ok fut = true ->
  exists out,
    process_chunk_with_limit fut = inr out
    /\ filter to_methods out
       = unwrap (method_items (unwrap (methods_of fut)))
    /\ List.length (unwrap (method_items (unwrap (methods_of fut))))
       = List.length (unwrap (methods_of fut)).
Proof.
  destruct fut as [c [e|result]]; unfold outcome_ok, methods_of; simpl.
  - intros _. eexists. repeat split.
  - destruct (Dict.get "methods" result) as [[| | | |l|]|];
      try discriminate.
    + intro Hok. simpl.
      destruct (method_items_tagged l Hok) as (items & -> & Hitems & Hlen).
      pose proof (filter_all _ _ Hitems) as Hf.
      destruct (Dict.get "overview" result) as [v1|];
        destruct items as [|item items];
        destruct (Dict.get "complexity" result) as [v3|];
        destruct (Dict.get "notes" result) as [v4|];
        simpl; eexists; (split; [reflexivity|]); (split; [|exact Hlen]);
        rewrite ?filter_app; simpl in *;
        try reflexivity;
        try (destruct (to_methods item) eqn:E;
             [|inversion Hitems; congruence];
             injection Hf as Hf; now rewrite ?filter_app, ?Hf, ?app_nil_r).
    + intros _. simpl.
      destruct (Dict.get "overview" result) as [v1|];
        destruct (Dict.get "complexity" result) as [v3|];
        destruct (Dict.get "notes" result) as [v4|];
        simpl; eexists; repeat split.
Qed.

Lemma place_methods (k : knowledge) (item : json) :
  methods (place k item)
  = (methods k ++ filter to_methods [item])%list.
Proof.
  unfold place, to_methods. simpl.
  destruct (type_is "overview" item); simpl; [now rewrite app_nil_r|].
  destruct (type_is "methods" item); simpl; [reflexivity|].
  destruct (type_is "complexity" item); simpl; [now rewrite app_nil_r|].
  destruct (type_is "notes" item); simpl; now rewrite app_nil_r.
Qed.

Lemma place_list_methods (res : list json) :
  forall k, methods (fold_left place res k)
            = (methods k ++ filter to_methods res)%list.
Proof.
  induction res as [|item res IH]; intro k; simpl fold_left.
  - simpl. now rewrite app_nil_r.
  - rewrite IH, place_methods.
    change (item :: res) with ([item] ++ res)%list.
    now rewrite filter_app, app_assoc.
Qed.

Lemma place_all_methods (results : list (list json)) :
  forall k, methods (place_all k results)
            = (methods k ++ filter to_methods (concat results))%list.
Proof.
  unfold place_all.
  induction results as [|res results IH]; intro k; simpl.
  - now rewrite app_nil_r.
  - now rewrite IH, place_list_methods, filter_app, app_assoc.
Qed.

Lemma values_methods (futures : list future) :
  forallb outcome_ok futures = true ->
  filter to_methods
         (concat (flat_map (fun t : exn + list json =>
                              match t with inl _ => [] | inr v => [v] end)
                           (map process_chunk_with_limit futures)))
  = flat_map (fun fut => unwrap (method_items (unwrap (methods_of fut))))
             futures
  /\ List.length
       (flat_map (fun fut => unwrap (method_items (unwrap (methods_of fut))))
                 futures)
     = List.length (flat_map (fun fut => unwrap (methods_of fut)) futures).
Proof.
  induction futures as [|fut futures IH]; simpl; intro H;
    [split; reflexivity|].
  apply andb_true_iff in H. destruct H as [Hfut Hrest].
  destruct (process_methods fut Hfut) as (out & -> & Hf & Hlen).
  destruct (IH Hrest) as [IH1 IH2]. simpl.
  rewrite filter_app, Hf, IH1, !length_app, Hlen, IH2.
  split; reflexivity.
Qed.

(** [extract_async] keeps every method of every result, in the order of
    the chunks and of the results, with the key ['type'] added: when the
    methods are lists of objects without a key ['type'], [methods] is the
    concatenation of the items of the chunks, and it has as many entries as
    the results have methods, repeated ones included. *)
Theorem extract_async_methods_all :
  forall (World : Type)
         (llm_invoke : string -> World -> (exn + string) * World)
         (parser_parse : string -> exn + json)
         (faiss_from_documents : list chunk_info -> option exn)
         (readme : option (exn + string)) (w : World)
         (futures : list future) (order : list nat) (k : knowledge),
    Permutation order (seq 0 (List.length futures)) ->
    forallb outcome_ok futures = true ->
    extract_async World llm_invoke parser_parse faiss_from_documents
                  readme w futures order = inr k ->
    methods k
    = flat_map (fun fut => unwrap (method_items (unwrap (methods_of fut))))
               futures
    /\ List.length (methods k)
       = List.length (flat_map (fun fut => unwrap (methods_of fut)) futures).
Proof.
  intros World llm_invoke parser_parse faiss_from_documents readme w
         futures order k HP Hok H.
  destruct (extract_async_returns _ _ _ _ _ _ _ _ _ HP H) as (_ & _ & ->).
  rewrite place_all_methods. simpl.
  destruct (values_methods futures Hok) as [H1 H2].
  rewrite H1. split; [reflexivity | exact H2].
Qed.

Lemma extract_async_methods_all_witness :
  List.length [Stub.method_f_item; Stub.method_f_item]
  = List.length
      (flat_map (fun fut => unwrap (methods_of fut))
                (futures_of (Stub.outcome_for Stub.methods_only)
                            [Stub.chunk_a; Stub.chunk_b])).
Proof.
  destruct (extract_async_methods_all
              unit (Stub.answering Stub.methods_only) Stub.parse_json
              Stub.faiss_ok None tt
              (futures_of (Stub.outcome_for Stub.methods_only)
                          [Stub.chunk_a; Stub.chunk_b])
              [1; 0]%nat
              (Knowledge (JObj []) []
                         [Stub.method_f_item; Stub.method_f_item] [] []))
    as [_ Hlen].
  - simpl. apply perm_swap.
  - vm_compute. reflexivity.
  - vm_compute. reflexivity.
  - exact Hlen.
Defined.

End AsyncMethods.

(* ================================================================== *)
(** * Properties of the batch analysis, of the reader and of the cloner *)
(* ================================================================== *)

Section BatchProperties.
Import PyStr LLMIntegration KnowledgeExtractor Batch.

Lemma completed_perm {A : Type} (l : list A) (order : list nat) :
  Permutation order (seq 0 (List.length l)) ->
  Permutation (completed order l) l.
Proof.
  intro HP. unfold completed. rewrite HP.
  pose proof (pick_all [] l) as H. simpl in H. rewrite H. reflexivity.
Qed.

(** [analyze_code_chunks_batch] gives one dict per chunk, in the order of
    completion: the result of the analysis, or the dict [{"error": str(e)}]
    for an analysis that raised [e].  The list is a rearrangement of these
    dicts taken in the order of the chunks. *)
Theorem batch_one_result_per_chunk :
  forall (outcomes : list (exn + dict)) (order : list nat),
    Permutation order (seq 0 (List.length outcomes)) ->
    Permutation (analyze_code_chunks_batch outcomes order)
                (map result_of outcomes)
    /\ List.length (analyze_code_chunks_batch outcomes order)
       = List.length outcomes
    /\ (forall e, In (inl e) outcomes ->
                  In [("error", JStr (exn_str e))]
                     (analyze_code_chunks_batch outcomes order))
    /\ (forall result, In (inr result) outcomes ->
                       In result (analyze_code_chunks_batch outcomes order)).
Proof.
  intros outcomes order HP.
  assert (P : Permutation (analyze_code_chunks_batch outcomes order)
                          (map result_of outcomes))
    by (unfold analyze_code_chunks_batch;
        now apply Permutation_map, completed_perm).
  split; [exact P|]. split; [|split].
  - now rewrite (Permutation_length P), length_map.
  - intros e Hin. apply (Permutation_in _ (Permutation_sym P)).
    apply in_map_iff. now exists (inl e).
  - intros result Hin. apply (Permutation_in _ (Permutation_sym P)).
    apply in_map_iff. now exists (inr result).
Qed.

Lemma batch_one_result_per_chunk_witness :
  List.length
    (analyze_code_chunks_batch
       [inr Stub.noisy_object;
        inl (Exn "APIConnectionError" "Connection error.")]
       [1; 0]%nat)
  = 2%nat.
Proof.
  destruct (batch_one_result_per_chunk
              [inr Stub.noisy_object;
               inl (Exn "APIConnectionError" "Connection error.")]
              [1; 0]%nat) as (_ & Hlen & _).
  - simpl. apply perm_swap.
  - exact Hlen.
Defined.

End BatchProperties.

Section MethodsComplete.
Import PyStr LLMIntegration KnowledgeExtractor.

(** The test [method not in knowledge['methods']] of [extract] loses no
    method: every method of every result is in [methods] or is equal, for
    [==], to an entry of [methods]; and every entry of [methods] is a method
    of some result. *)
Theorem extract_methods_complete :
  forall (World : Type)
         (llm_invoke : string -> World -> (exn + string) * World)
         (parser_parse : string -> exn + json)
         (faiss_from_documents : list chunk_info -> option exn)
         (readme : option (exn + string)) (w : World)
         (futures : list future) (order : list nat) (k : knowledge),
    Permutation order (seq 0 (List.length futures)) ->
    extract World llm_invoke parser_parse faiss_from_documents
            readme w futures order = inr k ->
    (forall fut m,
        In fut futures -> In m (unwrap (methods_of fut)) ->
        exists r, In r (methods k) /\ (r = m \/ py_eq r m = true))
    /\ (forall r, In r (methods k) ->
                  exists fut, In fut futures
                              /\ In r (unwrap (methods_of fut))).
Proof.
  intros World llm_invoke parser_parse faiss_from_documents readme w
         futures order k HP H.
  destruct (extract_returns _ _ _ _ _ _ _ _ _ H) as (_ & _ & ->). simpl.
  split.
  - intros fut m Hfut Hm. apply dedup_onto_covers.
    apply in_flat_map. exists fut. split; [|exact Hm].
    now apply in_as_completed.
  - intros r Hr. apply dedup_onto_in in Hr. destruct Hr as [[]|Hr].
    apply in_flat_map in Hr. destruct Hr as (fut & Hfut & Hr).
    exists fut. split; [|exact Hr]. now apply (as_completed_incl _ order).
Qed.

Lemma extract_methods_complete_witness :
  exists r, In r [Stub.method_f]
            /\ (r = Stub.method_f \/ py_eq r Stub.method_f = true).
Proof.
  destruct (extract_methods_complete
              unit (Stub.answering Stub.methods_only) Stub.parse_json
              Stub.faiss_ok None tt
              (futures_of (Stub.outcome_for Stub.methods_only)
                          [Stub.chunk_a; Stub.chunk_b])
              [1; 0]%nat
              (Knowledge (JObj []) [] [Stub.method_f] [] []))
    as [Hcover _].
  - simpl. apply perm_swap.
  - vm_compute. reflexivity.
  - apply (Hcover (Stub.chunk_b, Stub.outcome_for Stub.methods_only
                                   "def f(): pass") Stub.method_f).
    + simpl. right. left. reflexivity.
    + vm_compute. left. reflexivity.
Defined.

End MethodsComplete.

Section ReaderProperties.
Import PyStr KnowledgeExtractor CodeReader.
Local Open Scope string_scope.

Lemma endswith_app (p suffix : string) : endswith (p ++ suffix) suffix = true.
Proof. unfold endswith. rewrite rev_app. apply prefix_app. Qed.

Lemma endswith_split (s suffix : string) :
  endswith s suffix = true -> exists p, s = p ++ suffix.
Proof.
  unfold endswith. intro H.
  destruct (prefix_split _ _ H) as [r Hr].
  exists (rev r).
  rewrite <- (rev_involutive s), Hr, rev_app, rev_involutive. reflexivity.
Qed.

Lemma slength_lower (s : string) : String.length (lower s) = String.length s.
Proof. induction s as [|c s IH]; simpl; [reflexivity | now rewrite IH]. Qed.

Lemma sapp_same_length (a a' b b' : string) :
  String.length a = String.length a' -> a ++ b = a' ++ b' -> b = b'.
Proof.
  revert a'. induction a as [|c a IH]; intros [|c' a'] Hlen H;
    simpl in *; try discriminate; [exact H|].
  injection H as _ H. apply (IH a'); [lia | exact H].
Qed.

Lemma endswith_lower (f ext : string) :
  endswith (lower f) ext = true -> lower ext = ext.
Proof.
  intro H. destruct (endswith_split _ _ H) as [p Hp].
  pose proof (lower_idem f) as Hid.
  rewrite Hp, lower_app in Hid.
  symmetry. apply (sapp_same_length p (lower p)); [|now symmetry].
  now rewrite slength_lower.
Qed.

(** [_is_code_file] accepts a name exactly when the name in lower case
    ends with one of the extensions, so it does not see the case of the
    name; an extension that is not in lower case itself matches no name at
    all. *)
Theorem is_code_file_spec :
  (forall (exts : list string) (filename ext stem : string),
      In ext exts -> lower filename = stem ++ ext ->
      _is_code_file exts filename = true)
  /\ (forall (exts : list string) (filename : string),
         _is_code_file exts filename = true ->
         exists ext stem, In ext exts /\ lower filename = stem ++ ext)
  /\ (forall (exts : list string) (filename : string),
         _is_code_file exts (lower filename) = _is_code_file exts filename)
  /\ (forall (exts : list string) (filename : string),
         Forall (fun ext => lower ext <> ext) exts ->
         _is_code_file exts filename = false).
Proof.
  unfold _is_code_file. split; [|split; [|split]].
  - intros exts filename ext stem Hin Hlow.
    apply existsb_exists. exists ext. split; [exact Hin|].
    rewrite Hlow. apply endswith_app.
  - intros exts filename H.
    apply existsb_exists in H. destruct H as (ext & Hin & Hend).
    destruct (endswith_split _ _ Hend) as [stem Hstem].
    now exists ext, stem.
  - intros exts filename. now rewrite lower_idem.
  - intros exts filename Hall.
    destruct (existsb (fun ext => endswith (lower filename) ext) exts) eqn:E;
      [|reflexivity].
    apply existsb_exists in E. destruct E as (ext & Hin & Hend).
    rewrite Forall_forall in Hall.
    now destruct (Hall ext Hin (endswith_lower _ _ Hend)).
Qed.

Lemma is_code_file_spec_witness :
  _is_code_file default_extensions "Main.PY" = true
  /\ (exists ext stem, In ext default_extensions
                       /\ lower "setup.Py" = stem ++ ext)
  /\ _is_code_file [".PY"] "main.PY" = false.
Proof.
  destruct is_code_file_spec as (Hyes & Hsplit & _ & Hno).
  split; [|split].
  - apply (Hyes default_extensions "Main.PY" ".py" "main").
    + simpl. left. reflexivity.
    + reflexivity.
  - apply (Hsplit default_extensions "setup.Py"). reflexivity.
  - apply (Hno [".PY"] "main.PY").
    constructor; [discriminate | constructor].
Defined.


Lemma chunks_from_length (docs : list document) :
  forall idx, List.length (chunks_from idx docs) = List.length docs.
Proof.
  induction docs as [|doc docs IH]; intro idx; simpl; [reflexivity|].
  now rewrite IH.
Qed.




Lemma code_files_none (file_extensions : list string)
      (path_join : string -> string -> string)
      (walk : list (string * list string)) :
  (forall dir filename,
      In dir walk -> In filename (snd dir) ->
      _is_code_file file_extensions filename = false) ->
  code_files file_extensions path_join walk = [].
Proof.
  unfold code_files. induction walk as [|dir walk IH]; intro H;
    [reflexivity|].
  simpl. rewrite IH by (intros d f Hd; apply H; now right).
  assert (Hf : filter (_is_code_file file_extensions) (snd dir) = []).
  { assert (Hdir : forall f, In f (snd dir) ->
                             _is_code_file file_extensions f = false)
      by (intros f Hin; apply (H dir); [now left | exact Hin]).
    clear H IH. induction (snd dir) as [|f files IHf]; [reflexivity|].
    simpl. rewrite (Hdir f) by now left.
    apply IHf. intros g Hg. apply Hdir. now right. }
  now rewrite Hf.
Qed.

(** [read_and_chunk_codebase] returns the empty list, without loading or
    splitting anything, when no file of the walk has an allowed extension;
    and a file whose loading raises is left out without stopping the others:
    the documents loaded are those of the list without it. *)
Theorem reading_skips_what_it_cannot_read :
  forall (file_extensions : list string)
         (path_join : string -> string -> string)
         (text_load : string -> exn + list document)
         (split_documents : list document -> list document),
    (forall walk,
        (forall dir filename,
            In dir walk -> In filename (snd dir) ->
            _is_code_file file_extensions filename = false) ->
        read_and_chunk_codebase file_extensions path_join text_load
                                split_documents walk = [])
    /\ (forall before after bad e,
           text_load bad = inl e ->
           load_all text_load (before ++ bad :: after)%list
           = load_all text_load (before ++ after)%list).
Proof.
  intros file_extensions path_join text_load split_documents. split.
  - intros walk H. unfold read_and_chunk_codebase.
    now rewrite (code_files_none _ _ _ H).
  - intros before after bad e Hbad. unfold load_all.
    rewrite !flat_map_app. simpl. now rewrite Hbad.
Qed.

Lemma reading_skips_what_it_cannot_read_witness :
  read_and_chunk_codebase default_extensions DiskStub.path_join
                          (DiskStub.text_load "src/b.py")
                          DiskStub.split_documents
                          [("docs", ["README.md"; "logo.png"])] = []
  /\ load_all (DiskStub.text_load "src/b.py")
              (["src/a.py"] ++ "src/b.py" :: ["src/c.py"])%list
     = load_all (DiskStub.text_load "src/b.py")
                (["src/a.py"] ++ ["src/c.py"])%list.
Proof.
  destruct (reading_skips_what_it_cannot_read
              default_extensions DiskStub.path_join
              (DiskStub.text_load "src/b.py") DiskStub.split_documents)
    as [Hnone Hskip].
  split.
  - apply (Hnone [("docs", ["README.md"; "logo.png"])]).
    intros dir filename [<-|[]] Hin. simpl in Hin.
    destruct Hin as [<-|[<-|[]]]; reflexivity.
  - apply (Hskip ["src/a.py"] ["src/c.py"] "src/b.py"
                 (Exn "RuntimeError" "Error loading src/b.py")).
    reflexivity.
Defined.

End ReaderProperties.

Section ClonerProperties.
Import RepoCloner.

(** [clone] returns the target directory whenever it returns, and leaves
    the file system alone when the directory exists.  So, [clone_from]
    creating the directory, a second [clone] after a first one that returned
    returns the same path without cloning again. *)
Theorem clone_once :
  forall (FS : Type) (path_exists : FS -> string -> bool)
         (clone_from : string -> string -> FS -> option exn * FS)
         (repo_url target_dir : string) (fs fs' : FS) (path : string),
    (forall fs0 fs1,
        clone_from repo_url target_dir fs0 = (None, fs1) ->
        path_exists fs1 target_dir = true) ->
    clone FS path_exists clone_from repo_url target_dir fs = (inr path, fs') ->
    path = target_dir
    /\ path_exists fs' target_dir = true
    /\ clone FS path_exists clone_from repo_url target_dir fs'
       = (inr target_dir, fs').
Proof.
  intros FS path_exists clone_from repo_url target_dir fs fs' path Hmk.
  unfold clone.
  destruct (path_exists fs target_dir) eqn:E.
  - intro H. injection H as <- <-. rewrite E. repeat split.
  - destruct (clone_from repo_url target_dir fs) as [[e|] fs1] eqn:Ec;
      [discriminate|].
    intro H. injection H as <- <-.
    rewrite (Hmk _ _ Ec). repeat split.
Qed.

Lemma clone_once_witness :
  clone DiskStub.disk DiskStub.path_exists DiskStub.clone_from
        "https://example.org/repo.git" "./repo" ["./repo"]
  = (inr "./repo", ["./repo"]).
Proof.
  apply (clone_once DiskStub.disk DiskStub.path_exists DiskStub.clone_from
                    "https://example.org/repo.git" "./repo" [] ["./repo"]
                    "./repo").
  - intros fs0 fs1 H. injection H as <-. reflexivity.
  - reflexivity.
Defined.

End ClonerProperties.
